(** * darq: task registration, hook wrapping and the connection lifecycle

    A shallow embedding of [darq/app.py] (class [Darq]) and the properties
    of its constructor, [connect], [disconnect], [add_cron_jobs],
    [wrap_job_coroutine] and the [delay] entry point made by [task].
    [autodiscover_tasks], which only imports modules, is left out.

    Python objects that the code shares and mutates in place (the
    configuration mappings, the cron list, the [CronJob] entries) live in a
    heap of objects addressed by reference.  Keyword arguments, the metadata
    mapping and the job context are handed around as mappings; a callback
    that receives one may mutate it, so a callback returns the contents it
    leaves behind. *)

From stdpp Require Import base option list gmap strings fin_maps.
From Stdlib Require Import ZArith.

Open Scope Z_scope.
Open Scope string_scope.
Open Scope list_scope.

(** ** Values and objects *)

(** Identity of a coroutine function: an original user function, or the
    closure that [wrap_job_coroutine] makes around it. *)
Inductive coro :=
| Original (fid : nat)
| Wrapper (fid : nat).

#[warnings="-register-all"] Inductive value :=
| VNone
| VBool (b : bool)
| VInt (n : Z)
| VFloat (seconds : Z)              (* a float; the ones met here are whole seconds *)
| VStr (s : string)
| VTimedelta (seconds : Z)
| VCoro (c : coro)
| VPool (h : nat)                   (* an ArqRedis pool *)
| VJob (id : string)                (* an arq Job handle *)
| VDict (d : gmap string value)     (* a mapping carried by value *)
| VRef (a : nat).                   (* a reference to a heap object *)

Abbreviation dict := (gmap string value).

(** arq's [CronJob]: the code reads and rewrites [coroutine] only; the
    schedule fields are kept as one opaque value. *)
Record CronJob := { cj_name : string; cj_coroutine : coro; cj_schedule : value }.

Inductive obj :=
| ODict (d : dict)
| OList (l : list value)
| OCron (j : CronJob).

Abbreviation heap := (gmap nat obj).

Global Instance coro_eq_dec : EqDecision coro.
Proof. solve_decision. Defined.

(** Python truthiness.  Objects without [__bool__] or [__len__]
    (coroutine functions, pools, jobs, cron entries) are truthy. *)
Definition truthy (h : heap) (v : value) : bool :=
  match v with
  | VNone => false
  | VBool b => b
  | VInt n => negb (Z.eqb n 0)
  | VFloat x => negb (Z.eqb x 0)
  | VStr s => negb (String.eqb s "")
  | VTimedelta n => negb (Z.eqb n 0)
  | VCoro _ | VPool _ | VJob _ => true
  | VDict d => negb (bool_decide (dom d = ∅))
  | VRef a =>
      match h !! a with
      | Some (ODict d) => negb (bool_decide (dom d = ∅))
      | Some (OList l) => negb (bool_decide (l = []))
      | _ => true
      end
  end.

(** Python's [a or b]: the first operand when it is truthy, else the
    second. *)
Definition py_or (h : heap) (a b : value) : value :=
  if truthy h a then a else b.

(** ** Exceptions, results and the world *)

Inductive exn :=
| DarqException
| DarqConnectionError               (* subclass of DarqException *)
| DarqConfigError                   (* subclass of DarqException *)
| KeyError
| TypeError
| AttributeError
| Failure (tag : string).           (* raised by a hook, a task body or the engine *)

Inductive result (A : Type) :=
| Ok (a : A)
| Raise (e : exn).
Arguments Ok {A} a.
Arguments Raise {A} e.

(** arq's [Function] (what [arq.worker.func] builds): the durations are
    held in seconds. *)
Record Function := {
  af_name : string;
  af_coroutine : coro;
  af_timeout_s : value;
  af_keep_result_s : value;
  af_max_tries : value }.

(** What the engine, the broker and the callbacks were asked to do, in
    order.  The entries for hooks and bodies record the arguments each one
    was called with. *)
Inductive event :=
| EvCreatePool (settings : value)
| EvClose (pool : value)
| EvWaitClosed (pool : value)
| EvEnqueue (pool : value) (name : string) (args : list value) (kwargs : dict)
| EvPrePublish (metadata : dict) (f : Function) (args : list value) (kwargs : dict)
| EvPreRun (ctx : dict) (f : Function) (args : list value) (kwargs : dict)
| EvBody (fid : nat) (args : list value) (kwargs : dict)
| EvPostRun (ctx : dict) (f : Function) (args : list value) (kwargs : dict) (res : value).

(** How the next call into arq or the broker ends. *)
Inductive outcome :=
| Returns (v : value)
| Raises (e : exn).

Record world := {
  w_heap : heap;
  w_trace : list event;
  w_oracle : list outcome;          (* outcomes of the external calls to come *)
  w_pools : nat }.                  (* pools created so far *)

Definition set_heap (h : heap) (w : world) : world :=
  {| w_heap := h; w_trace := w_trace w; w_oracle := w_oracle w; w_pools := w_pools w |}.
Definition set_trace (t : list event) (w : world) : world :=
  {| w_heap := w_heap w; w_trace := t; w_oracle := w_oracle w; w_pools := w_pools w |}.
Definition set_oracle (o : list outcome) (w : world) : world :=
  {| w_heap := w_heap w; w_trace := w_trace w; w_oracle := o; w_pools := w_pools w |}.
Definition set_pools (n : nat) (w : world) : world :=
  {| w_heap := w_heap w; w_trace := w_trace w; w_oracle := w_oracle w; w_pools := n |}.

(** Computations that read and write the world and may raise.  A raise
    keeps the world as it is at that point: nothing is rolled back. *)
Definition M (A : Type) : Type := world → result A * world.

Global Instance M_ret : MRet M := λ A a w, (Ok a, w).
Global Instance M_bind : MBind M := λ A B f m w,
  match m w with
  | (Ok a, w') => f a w'
  | (Raise e, w') => (Raise e, w')
  end.

Definition raise {A} (e : exn) : M A := λ w, (Raise e, w).
Definition lift {A} (r : result A) : M A := λ w, (r, w).
Definition get_heap : M heap := λ w, (Ok (w_heap w), w).
Definition emit (ev : event) : M unit := λ w, (Ok tt, set_trace (w_trace w ++ [ev]) w).

(** *** Heap objects *)

Definition alloc (o : obj) : M nat := λ w,
  let a := fresh (dom (w_heap w)) in (Ok a, set_heap (<[a := o]> (w_heap w)) w).
Definition store (a : nat) (o : obj) : M unit := λ w,
  (Ok tt, set_heap (<[a := o]> (w_heap w)) w).

(** Reading an object as a mapping; an object of another kind has no
    mapping interface (Python: TypeError or AttributeError, by operation). *)
Definition load_dict (a : nat) : M dict := λ w,
  match w_heap w !! a with
  | Some (ODict d) => (Ok d, w)
  | _ => (Raise TypeError, w)
  end.

(** [obj[key] = v] *)
Definition store_item (a : nat) (key : string) (v : value) : M unit :=
  d ← load_dict a; store a (ODict (<[key := v]> d)).

(** [obj[key]] *)
Definition load_item (a : nat) (key : string) : M value :=
  d ← load_dict a;
  match d !! key with
  | Some v => mret v
  | None => raise KeyError
  end.

(** [v.append(x)] *)
Definition list_append (v x : value) : M unit := λ w,
  match v with
  | VRef l =>
      match w_heap w !! l with
      | Some (OList xs) => (Ok tt, set_heap (<[l := OList (xs ++ [x])]> (w_heap w)) w)
      | _ => (Raise AttributeError, w)
      end
  | _ => (Raise AttributeError, w)
  end.

(** Iterating a string gives its characters, each a string of length one;
    iterating a mapping gives its keys.  (A [gmap] does not record the order
    of insertion, in which Python gives the keys; the code at hand iterates
    a mapping only in [add_cron_jobs], which stops at the first key.) *)
Definition characters (s : string) : list value :=
  (λ a, VStr (String a EmptyString)) <$> String.list_ascii_of_string s.
Definition keys (d : dict) : list value := VStr <$> (map_to_list d).*1.

(** [*v] in a call: the elements that iterating [v] gives.  A list gives
    its elements, a string its characters, a mapping its keys; the other
    values are not iterable. *)
Definition unpack (v : value) : M (list value) := λ w,
  match v with
  | VStr s => (Ok (characters s), w)
  | VDict d => (Ok (keys d), w)
  | VRef l =>
      match w_heap w !! l with
      | Some (OList xs) => (Ok xs, w)
      | Some (ODict d) => (Ok (keys d), w)
      | _ => (Raise TypeError, w)
      end
  | _ => (Raise TypeError, w)
  end.

(** *** arq and the broker *)

(** The next external call returns or raises as the oracle says; with
    the oracle used up it returns [None]. *)
Definition ask : M value := λ w,
  match w_oracle w with
  | [] => (Ok VNone, w)
  | Returns v :: o => (Ok v, set_oracle o w)
  | Raises e :: o => (Raise e, set_oracle o w)
  end.

Definition new_pool : M value := λ w,
  (Ok (VPool (w_pools w)), set_pools (S (w_pools w)) w).

(** [arq.create_pool(settings)]: a new pool unless the attempt raises. *)
Definition create_pool (settings : value) : M value :=
  emit (EvCreatePool settings);; ask;; new_pool.

(** [pool.close()], [pool.wait_closed()], [pool.enqueue_job(...)]:
    methods of a pool; any other value has no such attribute. *)
Definition pool_close (pool : value) : M unit :=
  match pool with
  | VPool _ => emit (EvClose pool);; ask;; mret tt
  | _ => raise AttributeError
  end.

Definition pool_wait_closed (pool : value) : M unit :=
  match pool with
  | VPool _ => emit (EvWaitClosed pool);; ask;; mret tt
  | _ => raise AttributeError
  end.

Definition enqueue_job (pool : value) (name : string) (args : list value) (kwargs : dict) : M value :=
  match pool with
  | VPool _ => emit (EvEnqueue pool name args kwargs);; ask
  | _ => raise AttributeError
  end.

(** ** The application object *)

Global Instance coro_countable : Countable coro.
Proof.
  refine (inj_countable'
    (λ c, match c with Original n => inl n | Wrapper n => inr n end)
    (λ s, match s with inl n => Original n | inr n => Wrapper n end) _).
  by intros [].
Defined.

(** A user function: its identity, its qualified path and what calling it
    with [*args, **kwargs] gives. *)
Record AnyCallable := {
  fid : nat;
  qualname : string;
  body : list value → dict → result value }.

(** Modelled from the spec: [get_function_name] of [darq/utils.py] is not
    part of the sources at hand; the task name is derived deterministically
    from the function's qualified path. *)
Definition get_function_name (function : AnyCallable) : string := qualname function.

(** [arq.utils.to_seconds]: a timedelta becomes its [total_seconds()], a
    float; [None] and plain numbers stay as they are. *)
Definition to_seconds (td : value) : value :=
  match td with
  | VTimedelta s => VFloat s
  | _ => td
  end.

(** [arq.worker.func]: the engine's task-definition primitive, called with
    a coroutine function and a name. *)
Definition arq_worker_func (coroutine : coro) (name : string)
    (keep_result timeout max_tries : value) : Function :=
  {| af_name := name; af_coroutine := coroutine; af_timeout_s := to_seconds timeout;
     af_keep_result_s := to_seconds keep_result; af_max_tries := max_tries |}.

(** Modelled from the spec: class [Registry] of [darq/registry.py] is not
    part of the sources at hand.  It is created empty; [add] inserts a task
    descriptor keyed by its name and by the identity of the original
    (unwrapped) function; entries are never removed. *)
Record Registry := {
  by_name : gmap string Function;
  by_original_coro : gmap coro Function }.

Definition Registry_new : Registry := {| by_name := ∅; by_original_coro := ∅ |}.

(** [coroutine.__wrapped__], set by [functools.wraps]. *)
Definition wrapped_of (c : coro) : coro :=
  match c with
  | Wrapper n => Original n
  | Original n => Original n
  end.

Definition Registry_add (r : Registry) (arq_function : Function) : Registry :=
  {| by_name := <[af_name arq_function := arq_function]> (by_name r);
     by_original_coro :=
       <[wrapped_of (af_coroutine arq_function) := arq_function]> (by_original_coro r) |}.

(** Hooks are callables of the application's user.  Each is handed
    mutable mappings (the job context or the metadata mapping first, the
    keyword arguments last) and may change them in place.  Its return value
    is discarded by the callers.

    The job context is an object of the engine that outlives the call: a
    run hook leaves its writes there whether it returns or raises, so it
    gives back the contents of both mappings in either case. *)
Inductive hook_end :=
| Returned (ctx kwargs : dict)
| Raised (e : exn) (ctx kwargs : dict).

Definition run_hook : Type :=
  dict → Function → list value → dict → hook_end.
Definition postrun_hook : Type :=
  dict → Function → list value → dict → value → hook_end.

(** The mappings handed to the pre-publish hook are the locals [metadata]
    and [kwargs] of [delay]: when the hook raises, [delay] is left and
    nothing holds them any more, so only a hook that returns gives back
    their contents. *)
Definition prepublish_hook : Type :=
  dict → Function → list value → dict → result (dict * dict).

Record Darq := {
  registry : Registry;
  default_job_expires : value;
  on_job_prerun : option run_hook;
  on_job_postrun : option postrun_hook;
  on_job_prepublish : option prepublish_hook;
  config : nat;                     (* the application's own mapping *)
  redis : value;
  connected : bool }.

Definition set_registry (r : Registry) (self : Darq) : Darq :=
  {| registry := r; default_job_expires := default_job_expires self;
     on_job_prerun := on_job_prerun self; on_job_postrun := on_job_postrun self;
     on_job_prepublish := on_job_prepublish self; config := config self;
     redis := redis self; connected := connected self |}.
Definition set_redis (v : value) (self : Darq) : Darq :=
  {| registry := registry self; default_job_expires := default_job_expires self;
     on_job_prerun := on_job_prerun self; on_job_postrun := on_job_postrun self;
     on_job_prepublish := on_job_prepublish self; config := config self;
     redis := v; connected := connected self |}.
Definition set_connected (b : bool) (self : Darq) : Darq :=
  {| registry := registry self; default_job_expires := default_job_expires self;
     on_job_prerun := on_job_prerun self; on_job_postrun := on_job_postrun self;
     on_job_prepublish := on_job_prepublish self; config := config self;
     redis := redis self; connected := b |}.

Definition TD_1_DAY : value := VTimedelta 86400.

(** [Darq.add_cron_jobs]; [jobs] are the entries the call unpacks. *)
Fixpoint add_cron_jobs (self : Darq) (jobs : list value) : M unit :=
  match jobs with
  | [] => mret tt
  | job :: rest =>
      h ← get_heap;
      match job with
      | VRef a =>
          match h !! a with
          | Some (OCron j) =>
              match by_original_coro (registry self) !! cj_coroutine j with
              | None => raise DarqException
              | Some arq_function =>
                  store a (OCron {| cj_name := cj_name j;
                                    cj_coroutine := af_coroutine arq_function;
                                    cj_schedule := cj_schedule j |});;
                  l ← load_item (config self) "cron_jobs";
                  list_append l job;;
                  add_cron_jobs self rest
              end
          | _ => raise DarqException
          end
      | _ => raise DarqException
      end
  end.

(** [Darq.__init__].  [config] is the caller's mapping.  The attributes
    [redis] and [connected], assigned last, hold [None] and [False] in the
    object that [add_cron_jobs] is called on. *)
Definition Darq_init (config : nat) (default_job_expires : value)
    (on_job_prerun : option run_hook) (on_job_postrun : option postrun_hook)
    (on_job_prepublish : option prepublish_hook) : M Darq :=
  d ← load_dict config;
  own ← alloc (ODict d);
  let self := {| registry := Registry_new; default_job_expires := default_job_expires;
                 on_job_prerun := on_job_prerun; on_job_postrun := on_job_postrun;
                 on_job_prepublish := on_job_prepublish; config := own;
                 redis := VNone; connected := false |} in
  if bool_decide ("functions" ∈ dom d) then raise DarqConfigError else
  if bool_decide ("queue_name" ∈ dom d) then raise DarqConfigError else
  dflt ← alloc (OList []);
  let cron_jobs := default (VRef dflt) (d !! "cron_jobs") in
  store own (ODict (delete "cron_jobs" d));;
  fresh_list ← alloc (OList []);
  store_item own "cron_jobs" (VRef fresh_list);;
  jobs ← unpack cron_jobs;
  add_cron_jobs self jobs;;
  caller ← load_dict config;
  h ← get_heap;
  let pool := default VNone (caller !! "redis_pool") in
  let self := if truthy h pool then set_redis pool self else self in
  mret (set_connected (truthy h (redis self)) self).

(** [Darq.connect(redis_pool=None)] *)
Definition connect (self : Darq) (redis_pool : value) : M Darq :=
  if connected self then mret self else
  h ← get_heap;
  pool ← (if truthy h redis_pool then mret redis_pool
          else settings ← load_item (config self) "redis_settings";
               create_pool settings);
  mret (set_connected true (set_redis pool self)).

(** [Darq.disconnect()] *)
Definition disconnect (self : Darq) : M Darq :=
  if negb (connected self) then mret self else
  h ← get_heap;
  (if truthy h (redis self)
   then pool_close (redis self);; pool_wait_closed (redis self)
   else mret tt);;
  mret (set_connected false self).

(** ** Wrapping and enqueueing *)

(** [Darq.wrap_job_coroutine(function)] returns the closure [wrapper];
    as a value it is known by its identity. *)
Definition wrap_job_coroutine (self : Darq) (function : AnyCallable) : coro :=
  Wrapper (fid function).

(** The closure [wrapper(ctx, *args, **kwargs)] made by
    [wrap_job_coroutine]; [self] is the application as it is when the
    engine calls the wrapper, [ctx] the engine's job context. *)
Definition wrapper (self : Darq) (function : AnyCallable)
    (ctx : nat) (args : list value) (kwargs : dict) : M value :=
  arq_function ←
    match by_original_coro (registry self) !! Original (fid function) with
    | Some f => mret f
    | None => raise KeyError
    end;
  store_item ctx "metadata" (default (VDict ∅) (kwargs !! "__metadata__"));;
  let kwargs := delete "__metadata__" kwargs in
  kwargs ←
    match on_job_prerun self with
    | Some hook =>
        c ← load_dict ctx;
        emit (EvPreRun c arq_function args kwargs);;
        match hook c arq_function args kwargs with
        | Returned c' kwargs' => store ctx (ODict c');; mret kwargs'
        | Raised e c' _ => store ctx (ODict c');; raise e
        end
    | None => mret kwargs
    end;
  emit (EvBody (fid function) args kwargs);;
  res ← lift (body function args kwargs);
  match on_job_postrun self with
  | Some hook =>
      c ← load_dict ctx;
      emit (EvPostRun c arq_function args kwargs res);;
      match hook c arq_function args kwargs res with
      | Returned c' _ => store ctx (ODict c')
      | Raised e c' _ => store ctx (ODict c');; raise e
      end
  | None => mret tt
  end;;
  mret res.

(** What the closure [delay] made by [task] closes over. *)
Record Task := {
  task_function : AnyCallable;
  task_name : string;
  task_arq_function : Function;
  task_queue : value;
  task_expires : value }.

(** [Darq.task]: the decorator applied to [function] ([_decorate]).  The
    bare form and the configured form both end here.  It registers the
    task and attaches [delay], which the returned [Task] stands for. *)
Definition task (self : Darq) (function : AnyCallable)
    (keep_result timeout max_tries queue expires : value) : Darq * Task :=
  let name := get_function_name function in
  let arq_function :=
    arq_worker_func (wrap_job_coroutine self function) name keep_result timeout max_tries in
  (set_registry (Registry_add (registry self) arq_function) self,
   {| task_function := function; task_name := name; task_arq_function := arq_function;
      task_queue := queue; task_expires := expires |}).

(** The closure [delay], called with [args] and [kwargs]; [self] is the
    application as it is when [delay] is called. *)
Definition delay (self : Darq) (t : Task) (args : list value) (kwargs : dict) : M value :=
  h ← get_heap;
  let kwargs :=
    if truthy h (task_queue t) && negb (bool_decide ("_queue_name" ∈ dom kwargs))
    then <["_queue_name" := task_queue t]> kwargs else kwargs in
  let kwargs :=
    if negb (bool_decide ("_expires" ∈ dom kwargs))
    then <["_expires" := py_or h (task_expires t) (default_job_expires self)]> kwargs
    else kwargs in
  if negb (connected self) || negb (truthy h (redis self))
  then raise DarqConnectionError else
  '(metadata, kwargs) ←
    match on_job_prepublish self with
    | Some hook =>
        emit (EvPrePublish ∅ (task_arq_function t) args kwargs);;
        lift (hook ∅ (task_arq_function t) args kwargs)
    | None => mret (∅, kwargs)
    end;
  let kwargs :=
    if truthy h (VDict metadata) then <["__metadata__" := VDict metadata]> kwargs
    else kwargs in
  enqueue_job (redis self) (task_name t) args kwargs.

(** * The vocabulary of the properties

    Predicates and observations that the statements below are written
    with.  None of them is part of the program. *)

(** The objects of [h0] are as they were. *)
Definition keeps (h0 : heap) (w : world) : Prop :=
  ∀ a, a ∈ dom h0 → w_heap w !! a = h0 !! a.

(** The handle field holds something. *)
Definition holds_handle (self : Darq) : Prop := redis self ≠ VNone.

(** Calls to [arq.create_pool] and to [close] recorded in a trace. *)
Definition is_create_pool (ev : event) : bool :=
  match ev with EvCreatePool _ => true | _ => false end.
Definition is_close (ev : event) : bool :=
  match ev with EvClose _ => true | _ => false end.
Definition establishments (t : list event) : nat := length (List.filter is_create_pool t).
Definition closes (t : list event) : nat := length (List.filter is_close t).

(** The two readings of the connection state: the flag implies a held
    handle, and the flag is equivalent to a held handle. *)
Definition handle_when_connected (self : Darq) : Prop :=
  connected self = true → holds_handle self.
Definition connected_iff_handle (self : Darq) : Prop :=
  connected self = true ↔ holds_handle self.

(** The keyword arguments after [delay] has put in the task's queue and
    the expiry, as the pre-publish hook is shown them. *)
Definition kwargs_with_defaults (self : Darq) (t : Task) (h : heap) (kwargs : dict) : dict :=
  let kwargs :=
    if truthy h (task_queue t) && negb (bool_decide ("_queue_name" ∈ dom kwargs))
    then <["_queue_name" := task_queue t]> kwargs else kwargs in
  if negb (bool_decide ("_expires" ∈ dom kwargs))
  then <["_expires" := py_or h (task_expires t) (default_job_expires self)]> kwargs
  else kwargs.

(** The keyword arguments with a non-empty metadata mapping attached. *)
Definition kwargs_with_metadata (metadata kwargs : dict) : dict :=
  if truthy ∅ (VDict metadata) then <["__metadata__" := VDict metadata]> kwargs else kwargs.

(** The pre-publish hook, when one is configured, returns the keyword
    arguments with entry [k] as it found it. *)
Definition prepublish_keeps (self : Darq) (k : string) : Prop :=
  ∀ hook md f a kw md' kw',
    on_job_prepublish self = Some hook →
    hook md f a kw = Ok (md', kw') → kw' !! k = kw !! k.

(** The part of [wrapper] from the call of the function body on: the
    context holds [c], the keyword arguments are [kw]. *)
Definition body_and_postrun (self : Darq) (function : AnyCallable) (af : Function)
    (ctx : nat) (c : dict) (args : list value) (kw : dict) (w : world)
    : result value * world :=
  let w1 := set_trace (w_trace w ++ [EvBody (fid function) args kw]) w in
  match body function args kw with
  | Raise e => (Raise e, w1)
  | Ok v =>
      match on_job_postrun self with
      | Some hook =>
          let w2 := set_trace (w_trace w1 ++ [EvPostRun c af args kw v]) w1 in
          match hook c af args kw v with
          | Raised e c' _ => (Raise e, set_heap (<[ctx := ODict c']> (w_heap w2)) w2)
          | Returned c' _ => (Ok v, set_heap (<[ctx := ODict c']> (w_heap w2)) w2)
          end
      | None => (Ok v, w1)
      end
  end.

(** The runs of [wrapper] after the metadata is stored, as a relation
    between what the hooks and the body do and what comes out: the result,
    the calls added to the trace and the final contents of the context.
    [after_body c1 kw1] is the run from the call of the body on. *)
Inductive after_body (self : Darq) (function : AnyCallable) (af : Function)
    (args : list value) (c1 kw1 : dict) : result value → list event → dict → Prop :=
| body_raised e :
    body function args kw1 = Raise e →
    after_body self function af args c1 kw1
      (Raise e) [EvBody (fid function) args kw1] c1
| body_returned v :
    body function args kw1 = Ok v →
    on_job_postrun self = None →
    after_body self function af args c1 kw1
      (Ok v) [EvBody (fid function) args kw1] c1
| postrun_raised v hook e c2 kw2 :
    body function args kw1 = Ok v →
    on_job_postrun self = Some hook →
    hook c1 af args kw1 v = Raised e c2 kw2 →
    after_body self function af args c1 kw1
      (Raise e) [EvBody (fid function) args kw1; EvPostRun c1 af args kw1 v] c2
| postrun_returned v hook c2 kw2 :
    body function args kw1 = Ok v →
    on_job_postrun self = Some hook →
    hook c1 af args kw1 v = Returned c2 kw2 →
    after_body self function af args c1 kw1
      (Ok v) [EvBody (fid function) args kw1; EvPostRun c1 af args kw1 v] c2.

Inductive after_store (self : Darq) (function : AnyCallable) (af : Function)
    (args : list value) (c kw : dict) : result value → list event → dict → Prop :=
| prerun_raised hook e c1 kw1 :
    on_job_prerun self = Some hook →
    hook c af args kw = Raised e c1 kw1 →
    after_store self function af args c kw (Raise e) [EvPreRun c af args kw] c1
| prerun_returned hook c1 kw1 r evs c2 :
    on_job_prerun self = Some hook →
    hook c af args kw = Returned c1 kw1 →
    after_body self function af args c1 kw1 r evs c2 →
    after_store self function af args c kw r (EvPreRun c af args kw :: evs) c2
| no_prerun r evs c2 :
    on_job_prerun self = None →
    after_body self function af args c kw r evs c2 →
    after_store self function af args c kw r evs c2.

(** The contents a hook leaves in the context and in the keyword
    arguments, however it ends. *)
Definition ctx_left (o : hook_end) : dict :=
  match o with Returned c _ | Raised _ c _ => c end.
Definition kwargs_left (o : hook_end) : dict :=
  match o with Returned _ k | Raised _ _ k => k end.

(** The run hooks leave the [metadata] entry of the context as they find
    it, whether they return or raise. *)
Definition prerun_keeps_metadata (self : Darq) : Prop :=
  ∀ hook c f a k,
    on_job_prerun self = Some hook →
    ctx_left (hook c f a k) !! "metadata" = c !! "metadata".
Definition postrun_keeps_metadata (self : Darq) : Prop :=
  ∀ hook c f a k v,
    on_job_postrun self = Some hook →
    ctx_left (hook c f a k v) !! "metadata" = c !! "metadata".
Definition run_hooks_keep_metadata (self : Darq) : Prop :=
  prerun_keeps_metadata self ∧ postrun_keeps_metadata self.

(** A pre-run hook that returns leaves the keyword arguments as it finds
    them. *)
Definition prerun_keeps_kwargs (self : Darq) : Prop :=
  ∀ hook c f a k c' k',
    on_job_prerun self = Some hook → hook c f a k = Returned c' k' → k' = k.

(** The exception [e] comes out of a hook or out of the function body. *)
Definition raised_by_callee (self : Darq) (function : AnyCallable) (af : Function)
    (args : list value) (e : exn) : Prop :=
  (∃ hook c k c' k',
     on_job_prerun self = Some hook ∧ hook c af args k = Raised e c' k') ∨
  (∃ k, body function args k = Raise e) ∨
  (∃ hook c k v c' k',
     on_job_postrun self = Some hook ∧ hook c af args k v = Raised e c' k').

(** [config['cron_jobs']] of the application, when it is a list. *)
Definition cron_list (self : Darq) (h : heap) : option (list value) :=
  match h !! config self with
  | Some (ODict d) =>
      match d !! "cron_jobs" with
      | Some (VRef l) =>
          match h !! l with
          | Some (OList xs) => Some xs
          | _ => None
          end
      | _ => None
      end
  | _ => None
  end.

(** The entry is a [CronJob] whose coroutine is not in the registry. *)
Definition unregistered (self : Darq) (h : heap) (v : value) : Prop :=
  ∃ a j, v = VRef a ∧ h !! a = Some (OCron j) ∧
         by_original_coro (registry self) !! cj_coroutine j = None.

(** The entry has been bound: it is a [CronJob] whose coroutine is the
    coroutine of a registered descriptor. *)
Definition bound_entry (self : Darq) (h : heap) (v : value) : Prop :=
  ∃ a j key af, v = VRef a ∧ h !! a = Some (OCron j) ∧
    by_original_coro (registry self) !! key = Some af ∧
    cj_coroutine j = af_coroutine af.

(** The entry cannot be bound: it is no [CronJob], or its coroutine is not
    a key of the registry. *)
Definition refused_entry (self : Darq) (h : heap) (v : value) : Prop :=
  ∀ a j, v = VRef a → h !! a = Some (OCron j) →
         by_original_coro (registry self) !! cj_coroutine j = None.

(** * Example data

    Concrete applications, worlds and calls, on which the statements are
    tried. *)

(** A world for the examples: the caller's configuration mapping at
    address 0 holds broker settings only. *)
Definition demo_world : world :=
  {| w_heap := {[ 0%nat := ODict {[ "redis_settings" := VStr "redis://localhost" ]} ]};
     w_trace := []; w_oracle := []; w_pools := 0 |}.

(** A disconnected application over [demo_world], without hooks. *)
Definition idle_app : Darq :=
  {| registry := Registry_new; default_job_expires := TD_1_DAY;
     on_job_prerun := None; on_job_postrun := None; on_job_prepublish := None;
     config := 0%nat; redis := VNone; connected := false |}.

(** A world whose configuration mapping brings its own pool. *)
Definition pooled_world : world :=
  {| w_heap := {[ 0%nat := ODict {[ "redis_pool" := VPool 7 ]} ]};
     w_trace := []; w_oracle := []; w_pools := 0 |}.

Definition pooled_app : Darq := Eval vm_compute in
  match Darq_init 0 TD_1_DAY None None None pooled_world with
  | (Ok self, _) => self
  | _ => idle_app
  end.
Definition pooled_built : world := Eval vm_compute in
  (Darq_init 0 TD_1_DAY None None None pooled_world).2.

(** [idle_app] after a [connect()] that made pool 0. *)
Definition live_app : Darq := set_connected true (set_redis (VPool 0) idle_app).
Definition live_world : world :=
  set_pools 1 (set_trace [EvCreatePool (VStr "redis://localhost")] demo_world).

Definition closed_world : world :=
  set_trace [EvCreatePool (VStr "redis://localhost"); EvClose (VPool 0);
             EvWaitClosed (VPool 0)] live_world.

(** The application and the world after construction over [demo_world],
    a [connect()] and a [disconnect()]. *)
Definition reconnect_run : M Darq :=
  s ← Darq_init 0 TD_1_DAY None None None; s1 ← connect s VNone; disconnect s1.
Definition disconnected_app : Darq := Eval vm_compute in
  match reconnect_run demo_world with (Ok self, _) => self | _ => idle_app end.
Definition disconnected_world : world := Eval vm_compute in (reconnect_run demo_world).2.

Definition add_function : AnyCallable :=
  {| fid := 1; qualname := "tasks.add";
     body := λ args kwargs,
       match args with
       | [VInt a; VInt b] => Ok (VInt (a + b))
       | _ => Raise TypeError
       end |}.

(** A pre-publish hook that sets [metadata["trace_id"] = "abc"]. *)
Definition trace_id_hook : prepublish_hook :=
  λ metadata f args kwargs, Ok (<["trace_id" := VStr "abc"]> metadata, kwargs).

(** Run hooks that leave the context and the keyword arguments alone. *)
Definition quiet_prerun : run_hook := λ ctx f args kwargs, Returned ctx kwargs.
Definition quiet_postrun : postrun_hook := λ ctx f args kwargs res, Returned ctx kwargs.

Definition hooked_app : Darq :=
  {| registry := Registry_new; default_job_expires := TD_1_DAY;
     on_job_prerun := Some quiet_prerun; on_job_postrun := Some quiet_postrun;
     on_job_prepublish := Some trace_id_hook;
     config := 0%nat; redis := VNone; connected := false |}.

Definition add_declared : Darq * Task :=
  task hooked_app add_function VNone VNone VNone (VStr "math") VNone.
Definition add_task : Task := add_declared.2.

(** The application with [add] declared, before and after [connect()]. *)
Definition add_app : Darq := add_declared.1.
Definition add_app_live : Darq := set_connected true (set_redis (VPool 0) add_app).

(** [add.delay(1, 2, _expires=timedelta(seconds=5))] on the connected
    application. *)
Definition add_args : list value := [VInt 1; VInt 2].
Definition add_kwargs : dict := {[ "_expires" := VTimedelta 5 ]}.
Definition add_forwarded : dict := Eval vm_compute in
  <["__metadata__" := VDict {[ "trace_id" := VStr "abc" ]}]>
    (<["_queue_name" := VStr "math"]> add_kwargs).
Definition add_published : list event := Eval vm_compute in
  [EvPrePublish ∅ (task_arq_function add_task) add_args
     (<["_queue_name" := VStr "math"]> add_kwargs);
   EvEnqueue (VPool 0) "tasks.add" add_args add_forwarded].
Definition add_enqueued : result value * world := Eval vm_compute in
  delay add_app_live add_task add_args add_kwargs live_world.

(** A worker's world: the configuration mapping at 0, a job context (an
    empty mapping) at 9. *)
Definition job_world : world :=
  {| w_heap := <[9%nat := ODict ∅]> (w_heap demo_world);
     w_trace := []; w_oracle := []; w_pools := 0 |}.

(** A task whose body raises. *)
Definition failing_function : AnyCallable :=
  {| fid := 2; qualname := "tasks.fail"; body := λ args kwargs, Raise (Failure "boom") |}.
Definition fail_declared : Darq * Task :=
  task add_app failing_function VNone VNone VNone VNone VNone.
Definition worker_app : Darq := fail_declared.1.
Definition fail_arq_function : Function := task_arq_function fail_declared.2.

(** What the engine hands the wrapper for the job enqueued by
    [add_enqueued]: the forwarded keyword arguments less the engine's own. *)
Definition add_job_kwargs : dict := Eval vm_compute in
  delete "_queue_name" (delete "_expires" add_forwarded).
Definition add_job_run : result value * world := Eval vm_compute in
  wrapper worker_app add_function 9 add_args add_job_kwargs job_world.
Definition add_job_ctx : dict := Eval vm_compute in
  {[ "metadata" := VDict {[ "trace_id" := VStr "abc" ]} ]}.
Definition add_job_trace : list event := Eval vm_compute in
  [EvPreRun add_job_ctx (task_arq_function add_task) add_args ∅;
   EvBody 1 add_args ∅;
   EvPostRun add_job_ctx (task_arq_function add_task) add_args ∅ (VInt 3)].

Definition add_cron : CronJob :=
  {| cj_name := "cron:add"; cj_coroutine := Original 1; cj_schedule := VInt 0 |}.
Definition orphan_cron : CronJob :=
  {| cj_name := "cron:orphan"; cj_coroutine := Original 7; cj_schedule := VInt 0 |}.

Definition cron_world : world :=
  {| w_heap := <[10%nat := OCron add_cron]> (<[11%nat := OCron orphan_cron]> (w_heap demo_world));
     w_trace := []; w_oracle := []; w_pools := 0 |}.

(** The application constructed over [cron_world], then [add] declared. *)
Definition cron_constructed : Darq := Eval vm_compute in
  match Darq_init 0 TD_1_DAY None None None cron_world with
  | (Ok self, _) => self
  | _ => idle_app
  end.
Definition cron_built : world := Eval vm_compute in
  (Darq_init 0 TD_1_DAY None None None cron_world).2.
Definition cron_app : Darq :=
  (task cron_constructed add_function VNone VNone VNone (VStr "math") VNone).1.

Definition cron_entries : list value := [VRef 10; VRef 11].
Definition cron_after : world := Eval vm_compute in
  (add_cron_jobs cron_app cron_entries cron_built).2.

(** ** Further vocabulary and data *)

(** Nothing was asked of arq or of the broker, and no hook or body was
    called: the trace, the oracle and the pool counter are as they were. *)
Definition quiet (w w' : world) : Prop :=
  w_trace w' = w_trace w ∧ w_oracle w' = w_oracle w ∧ w_pools w' = w_pools w.

(** Computations that only read and write the heap. *)
Definition heap_only {A} (m : M A) : Prop :=
  ∀ w r w', m w = (r, w') → quiet w w'.

(** A configuration mapping with a reserved key. *)
Definition reserved_world : world :=
  {| w_heap := {[ 0%nat := ODict {[ "queue_name" := VStr "fast" ]} ]};
     w_trace := []; w_oracle := []; w_pools := 0 |}.

(** A configuration mapping that lists one cron entry. *)
Definition cron_config_world : world :=
  {| w_heap := <[0%nat := ODict {[ "cron_jobs" := VRef 1 ]}]>
                 (<[1%nat := OList [VRef 2]]> {[ 2%nat := OCron add_cron ]});
     w_trace := []; w_oracle := []; w_pools := 0 |}.

(** [demo_world] with a broker that refuses the next connection attempt
    and accepts the one after. *)
Definition flaky_world : world :=
  set_oracle [Raises (Failure "refused"); Returns VNone] demo_world.

(** [live_world] with a broker whose next call raises. *)
Definition stuck_world : world :=
  set_oracle [Raises (Failure "reset")] live_world.

(** The calls a [delay] call may add to the trace: the pre-publish hook
    at most once, then [enqueue_job] at most once. *)
Definition delay_trace_ok (evs : list event) : bool :=
  match evs with
  | [] | [EvPrePublish _ _ _ _] | [EvEnqueue _ _ _ _]
  | [EvPrePublish _ _ _ _; EvEnqueue _ _ _ _] => true
  | _ => false
  end.

(** [add] declared on a connected application without hooks. *)
Definition plain_declared : Darq * Task :=
  task live_app add_function VNone VNone VNone VNone VNone.
Definition plain_app : Darq := plain_declared.1.
Definition plain_task : Task := plain_declared.2.
Definition plain_kwargs : dict := {[ "b" := VInt 2 ]}.
Definition plain_forwarded : dict := Eval vm_compute in
  <["_expires" := TD_1_DAY]> plain_kwargs.
Definition plain_enqueued : result value * world := Eval vm_compute in
  delay plain_app plain_task [VInt 1] plain_kwargs live_world.

(** A connected application whose pre-publish hook raises. *)
Definition failing_prepublish : prepublish_hook :=
  λ metadata f args kwargs, Raise (Failure "no trace").
Definition unpublishable_app : Darq :=
  {| registry := registry add_app; default_job_expires := TD_1_DAY;
     on_job_prerun := None; on_job_postrun := None;
     on_job_prepublish := Some failing_prepublish;
     config := 0%nat; redis := VPool 0; connected := true |}.

(** [live_world] with an engine that answers the next call with a job. *)
Definition answering_world : world :=
  set_oracle [Returns (VJob "job-1")] live_world.

(** The calls a run of the wrapper may add to the trace. *)
Definition is_job_event (ev : event) : bool :=
  match ev with
  | EvPreRun _ _ _ _ | EvBody _ _ _ | EvPostRun _ _ _ _ _ => true
  | _ => false
  end.

(** Workers whose pre-run, respectively post-run, hook raises. *)
Definition failing_prerun : run_hook :=
  λ ctx f args kwargs, Raised (Failure "pre") ctx kwargs.
Definition failing_postrun : postrun_hook :=
  λ ctx f args kwargs res, Raised (Failure "post") ctx kwargs.
Definition guarded_app : Darq :=
  {| registry := registry worker_app; default_job_expires := TD_1_DAY;
     on_job_prerun := Some failing_prerun; on_job_postrun := None;
     on_job_prepublish := None; config := 0%nat; redis := VNone; connected := false |}.
Definition sour_app : Darq :=
  {| registry := registry worker_app; default_job_expires := TD_1_DAY;
     on_job_prerun := None; on_job_postrun := Some failing_postrun;
     on_job_prepublish := None; config := 0%nat; redis := VNone; connected := false |}.

(** A function nobody declared. *)
Definition stray_function : AnyCallable :=
  {| fid := 8; qualname := "tasks.stray"; body := λ args kwargs, Ok VNone |}.

(** Computations that ask nothing of arq or of the broker. *)
Definition engine_free {A} (m : M A) : Prop :=
  ∀ w r w', m w = (r, w') → w_oracle w' = w_oracle w ∧ w_pools w' = w_pools w.

(** The entry at [a] is a [CronJob] of a registered function. *)
Definition registered_entry (self : Darq) (h : heap) (a : nat) : Prop :=
  ∃ j af, h !! a = Some (OCron j) ∧
          by_original_coro (registry self) !! cj_coroutine j = Some af.

(** A [CronJob] with its coroutine replaced. *)
Definition rebound (j : CronJob) (c : coro) : CronJob :=
  {| cj_name := cj_name j; cj_coroutine := c; cj_schedule := cj_schedule j |}.

(** A second cron entry for [add]. *)
Definition nightly_cron : CronJob :=
  {| cj_name := "cron:nightly"; cj_coroutine := Original 1; cj_schedule := VInt 3 |}.
Definition nightly_world : world :=
  set_heap (<[20%nat := OCron nightly_cron]> (w_heap cron_built)) cron_built.

(** A connected application whose pre-publish hook sets
    [kwargs['_expires']] to one minute, and what [add.delay(1, 2,
    _expires=timedelta(seconds=5))] gives on it. *)
Definition rewriting_prepublish : prepublish_hook :=
  λ metadata f args kwargs, Ok (metadata, <["_expires" := VTimedelta 60]> kwargs).
Definition rewriting_app : Darq :=
  {| registry := registry add_app; default_job_expires := TD_1_DAY;
     on_job_prerun := None; on_job_postrun := None;
     on_job_prepublish := Some rewriting_prepublish;
     config := 0%nat; redis := VPool 0; connected := true |}.
Definition rewritten_enqueued : result value * world := Eval vm_compute in
  delay rewriting_app add_task add_args add_kwargs live_world.
Definition rewritten_forwarded : dict := Eval vm_compute in
  <["_queue_name" := VStr "math"]> {[ "_expires" := VTimedelta 60 ]}.

(** A worker whose pre-run hook puts [__metadata__] back into the keyword
    arguments, and a run of [add] on it without [__metadata__]. *)
Definition restoring_prerun : run_hook :=
  λ ctx f args kwargs, Returned ctx (<["__metadata__" := VDict ∅]> kwargs).
Definition restoring_app : Darq :=
  {| registry := registry worker_app; default_job_expires := TD_1_DAY;
     on_job_prerun := Some restoring_prerun; on_job_postrun := None;
     on_job_prepublish := None; config := 0%nat; redis := VNone; connected := false |}.
Definition restored_run : result value * world := Eval vm_compute in
  wrapper restoring_app add_function 9 add_args ∅ job_world.

(** An application whose pre-publish hook is [trace_id_hook] and whose
    pre-run hook overwrites [ctx['metadata']], and the run on it of the job
    that [add.delay(1, 2, _expires=timedelta(seconds=5))] enqueues. *)
Definition stamping_prerun : run_hook :=
  λ ctx f args kwargs, Returned (<["metadata" := VDict {[ "worker" := VInt 7 ]}]> ctx) kwargs.
Definition stamping_app : Darq :=
  {| registry := registry worker_app; default_job_expires := TD_1_DAY;
     on_job_prerun := Some stamping_prerun; on_job_postrun := Some quiet_postrun;
     on_job_prepublish := Some trace_id_hook;
     config := 0%nat; redis := VPool 0; connected := true |}.
Definition stamped_run : result value * world := Eval vm_compute in
  wrapper stamping_app add_function 9 add_args add_job_kwargs job_world.
Definition stamped_ctx : dict := Eval vm_compute in
  {[ "metadata" := VDict {[ "worker" := VInt 7 ]} ]}.

(** * Properties *)

(** ** Reasoning about computations *)

Lemma bind_inv {A B} (m : M A) (f : A → M B) w r w' :
  (m ≫= f) w = (r, w') →
  (∃ e, m w = (Raise e, w') ∧ r = Raise e) ∨
  (∃ a w1, m w = (Ok a, w1) ∧ f a w1 = (r, w')).
Proof.
  unfold mbind, M_bind. destruct (m w) as [[a|e] w1]; intros H.
  - right. eauto.
  - left. exists e. by simplify_eq.
Qed.

Lemma bind_Ok_inv {A B} (m : M A) (f : A → M B) w b w' :
  (m ≫= f) w = (Ok b, w') →
  ∃ a w1, m w = (Ok a, w1) ∧ f a w1 = (Ok b, w').
Proof.
  intros H. apply bind_inv in H as [(e & _ & ?) | ?]; [done | done].
Qed.

Lemma keeps_refl w : keeps (w_heap w) w.
Proof. by intros a _. Qed.

Lemma keeps_dom h0 w a : keeps h0 w → a ∈ dom h0 → a ∈ dom (w_heap w).
Proof.
  intros Hk Ha. apply elem_of_dom. rewrite (Hk a Ha). by apply elem_of_dom.
Qed.

Lemma alloc_keeps h0 o w a w1 :
  keeps h0 w → alloc o w = (Ok a, w1) →
  keeps h0 w1 ∧ (a ∉ dom h0) ∧ (a ∉ dom (w_heap w)) ∧
  w_heap w1 = <[a := o]> (w_heap w).
Proof.
  intros Hk H. unfold alloc in H. simplify_eq.
  assert ((fresh (dom (w_heap w)) : nat) ∉ dom h0) as Hf.
  { intros Ha. apply (is_fresh (dom (w_heap w))). by eapply keeps_dom. }
  split_and!; [|done|apply is_fresh|done].
  intros b Hb. simpl. rewrite lookup_insert_ne; [by apply Hk|]. by intros <-.
Qed.

Lemma store_keeps h0 a o w u w1 :
  keeps h0 w → a ∉ dom h0 → store a o w = (Ok u, w1) →
  keeps h0 w1 ∧ w_heap w1 = <[a := o]> (w_heap w).
Proof.
  intros Hk Ha H. unfold store in H. simplify_eq. split; [|done].
  intros b Hb. simpl. rewrite lookup_insert_ne; [by apply Hk|]. by intros <-.
Qed.

Lemma load_dict_inv a w r w1 :
  load_dict a w = (r, w1) →
  w1 = w ∧ ((∃ d, r = Ok d ∧ w_heap w !! a = Some (ODict d)) ∨ r = Raise TypeError).
Proof.
  unfold load_dict. intros H. repeat case_match; simplify_eq; eauto.
Qed.

Lemma unpack_inv v w r w1 :
  unpack v w = (r, w1) →
  w1 = w ∧ ((∃ xs, r = Ok xs) ∨ r = Raise TypeError).
Proof.
  unfold unpack. intros H. repeat case_match; simplify_eq; eauto 10.
Qed.

(** With nothing registered, binding cron entries changes nothing: it
    returns for no entries and raises at the first entry otherwise. *)
Lemma add_cron_jobs_empty_registry self jobs w :
  by_original_coro (registry self) = ∅ →
  add_cron_jobs self jobs w = (if jobs is [] then Ok tt else Raise DarqException, w).
Proof.
  intros He. destruct jobs as [|job rest]; [done|].
  simpl. unfold mbind, M_bind, get_heap, raise. simpl.
  rewrite He. repeat case_match; simplify_eq; try done.
Qed.

Ltac minv H :=
  let e := fresh "e" in let a := fresh "x" in let w := fresh "w" in
  let Hm := fresh "Hm" in
  apply bind_inv in H as [(e & Hm & ->) | (a & w & Hm & H)].

Lemma store_item_keeps h0 a k v w r w1 :
  keeps h0 w → a ∉ dom h0 → store_item a k v w = (r, w1) →
  keeps h0 w1 ∧
  ((∃ d, r = Ok tt ∧ w_heap w !! a = Some (ODict d) ∧
         w_heap w1 = <[a := ODict (<[k := v]> d)]> (w_heap w)) ∨
   (r = Raise TypeError ∧ w1 = w)).
Proof.
  intros Hk Ha H. unfold store_item in H. minv H.
  - apply load_dict_inv in Hm as [-> [(? & ? & ?)|?]]; [done|]. simplify_eq. eauto.
  - apply load_dict_inv in Hm as [-> [(d & ? & Hd)|?]]; [|done]. simplify_eq.
    destruct r as [[]|]; [|done].
    eapply store_keeps in H as [? ?]; eauto 10.
Qed.

(** What the constructor leaves behind. *)
Lemma Darq_init_inv cfg dje pre post pub w r w' :
  Darq_init cfg dje pre post pub w = (r, w') →
  keeps (w_heap w) w' ∧
  ∀ self, r = Ok self →
    ∃ d l,
      w_heap w !! cfg = Some (ODict d) ∧
      ("functions" ∉ dom d) ∧ ("queue_name" ∉ dom d) ∧
      (config self ∉ dom (w_heap w)) ∧ (l ∉ dom (w_heap w)) ∧
      w_heap w' !! config self = Some (ODict (<["cron_jobs" := VRef l]> d)) ∧
      w_heap w' !! l = Some (OList []) ∧
      registry self = Registry_new ∧
      redis self = (let v := default VNone (d !! "redis_pool") in
                    if truthy (w_heap w') v then v else VNone) ∧
      connected self = truthy (w_heap w') (redis self).
Proof.
  unfold Darq_init. intros H.
  pose proof (keeps_refl w) as Hk.
  minv H. { apply load_dict_inv in Hm as [-> _]. done. }
  apply load_dict_inv in Hm as [-> [(d & ? & Hd)|?]]; [|done]. simplify_eq.
  minv H. { done. }
  eapply alloc_keeps in Hm as (Hk1 & Hown & _ & Hh1); [|done].
  case_bool_decide as Hf. { unfold raise in H. by simplify_eq. }
  case_bool_decide as Hq. { unfold raise in H. by simplify_eq. }
  minv H. { done. }
  eapply alloc_keeps in Hm as (Hk2 & Hdflt & _ & Hh2); [|done].
  minv H. { done. }
  eapply store_keeps in Hm as (Hk3 & Hh3); [|done..].
  minv H. { done. }
  eapply alloc_keeps in Hm as (Hk4 & Hfl & Hfl2 & Hh4); [|done].
  minv H. { eapply store_item_keeps in Hm as [? _]; done. }
  eapply store_item_keeps in Hm as [Hk5 [(d5 & _ & Hd5 & Hh5)|[? _]]]; [|done|done..].
  minv H. { apply unpack_inv in Hm as [-> _]. done. }
  apply unpack_inv in Hm as [-> [(xs & ?)|?]]; [|done]. simplify_eq.
  minv H.
  { rewrite add_cron_jobs_empty_registry in Hm by done. by case_match; simplify_eq. }
  rewrite add_cron_jobs_empty_registry in Hm by done.
  destruct xs; simplify_eq.
  minv H. { apply load_dict_inv in Hm as [-> _]. done. }
  apply load_dict_inv in Hm as [-> [(d6 & ? & Hd6)|?]]; [|done]. simplify_eq.
  unfold mbind, M_bind, get_heap, mret, M_ret in H. simplify_eq.
  split; [done|]. intros self ?. simplify_eq.
  rewrite (Hk5 _ ltac:(by apply elem_of_dom)) in Hd6. rewrite Hd in Hd6. simplify_eq.
  assert (x2 ≠ x) as Hne.
  { intros ->. apply Hfl2. rewrite Hh3. set_solver. }
  rewrite Hh4, lookup_insert_ne, Hh3, lookup_insert_eq in Hd5 by done. simplify_eq.
  exists d6, x2.
  destruct (truthy (w_heap w') (default VNone (d6 !! "redis_pool"))) eqn:Ht; simpl;
    rewrite ?Ht; split_and!; try done.
  all: try (by rewrite Hh5, insert_delete_eq, lookup_insert_eq).
  all: by rewrite Hh5, lookup_insert_ne, Hh4, lookup_insert_eq.
Qed.

(** ** The connection lifecycle *)

Lemma truthy_not_None h v : truthy h v = true → v ≠ VNone.
Proof. by intros H ->. Qed.

Lemma load_item_inv a k w r w1 :
  load_item a k w = (r, w1) →
  w1 = w ∧ ((∃ d v, r = Ok v ∧ w_heap w !! a = Some (ODict d) ∧ d !! k = Some v) ∨
            (∃ e, r = Raise e)).
Proof.
  unfold load_item. intros H. minv H.
  - apply load_dict_inv in Hm as [-> _]. eauto.
  - apply load_dict_inv in Hm as [-> [(d & ? & Hd)|?]]; [|done]. simplify_eq.
    destruct (d !! k) eqn:Hk; unfold mret, M_ret, raise in H; simplify_eq; eauto 10.
Qed.

Lemma ask_inv w r w1 :
  ask w = (r, w1) →
  w_heap w1 = w_heap w ∧ w_trace w1 = w_trace w ∧ w_pools w1 = w_pools w.
Proof.
  unfold ask. intros H. repeat case_match; by simplify_eq.
Qed.

Lemma create_pool_inv s w r w1 :
  create_pool s w = (r, w1) →
  w_heap w1 = w_heap w ∧ w_trace w1 = w_trace w ++ [EvCreatePool s] ∧
  ((∃ n, r = Ok (VPool n)) ∨ (∃ e, r = Raise e)).
Proof.
  unfold create_pool. intros H.
  minv H. { unfold emit in Hm. done. }
  unfold emit in Hm. simplify_eq.
  minv H. { apply ask_inv in Hm as (? & ? & ?). eauto 10. }
  apply ask_inv in Hm as (? & ? & ?). unfold new_pool in H. simplify_eq. eauto 10.
Qed.

Lemma connect_cases self p w self' w' :
  connect self p w = (Ok self', w') →
  (connected self = true ∧ self' = self ∧ w' = w) ∨
  (connected self = false ∧ connected self' = true ∧
   ((truthy (w_heap w) p = true ∧ redis self' = p ∧ w' = w) ∨
    (truthy (w_heap w) p = false ∧ ∃ n s, redis self' = VPool n ∧
       w_trace w' = w_trace w ++ [EvCreatePool s]))).
Proof.
  unfold connect. intros H.
  destruct (connected self) eqn:Hc.
  { unfold mret, M_ret in H. simplify_eq. eauto. }
  right. split; [done|].
  apply bind_Ok_inv in H as (h & w1 & Hh & H). unfold get_heap in Hh. simplify_eq.
  apply bind_Ok_inv in H as (pool & w2 & Hp & H).
  unfold mret, M_ret in H. simplify_eq. split; [done|].
  destruct (truthy (w_heap w1) p) eqn:Ht.
  - unfold mret, M_ret in Hp. simplify_eq. eauto.
  - right. split; [done|].
    apply bind_Ok_inv in Hp as (s & w3 & Hs & Hp).
    apply load_item_inv in Hs as [-> _].
    apply create_pool_inv in Hp as (_ & Htr & [(n & ?)|(e & ?)]); simplify_eq.
    eauto.
Qed.

Lemma pool_close_inv pool w u w1 :
  pool_close pool w = (Ok u, w1) →
  w_heap w1 = w_heap w ∧ w_trace w1 = w_trace w ++ [EvClose pool].
Proof.
  unfold pool_close. intros H. destruct pool; try done.
  apply bind_Ok_inv in H as ([] & w2 & Hm & H). unfold emit in Hm. simplify_eq.
  apply bind_Ok_inv in H as (v & w3 & Hm & H). unfold mret, M_ret in H. simplify_eq.
  apply ask_inv in Hm as (? & ? & ?). done.
Qed.

Lemma pool_wait_closed_inv pool w u w1 :
  pool_wait_closed pool w = (Ok u, w1) →
  w_heap w1 = w_heap w ∧ w_trace w1 = w_trace w ++ [EvWaitClosed pool].
Proof.
  unfold pool_wait_closed. intros H. destruct pool; try done.
  apply bind_Ok_inv in H as ([] & w2 & Hm & H). unfold emit in Hm. simplify_eq.
  apply bind_Ok_inv in H as (v & w3 & Hm & H). unfold mret, M_ret in H. simplify_eq.
  apply ask_inv in Hm as (? & ? & ?). done.
Qed.

Lemma disconnect_cases self w self' w' :
  disconnect self w = (Ok self', w') →
  (connected self = false ∧ self' = self ∧ w' = w) ∨
  (connected self = true ∧ self' = set_connected false self ∧
   ((truthy (w_heap w) (redis self) = false ∧ w' = w) ∨
    (truthy (w_heap w) (redis self) = true ∧
       w_trace w' = w_trace w ++ [EvClose (redis self); EvWaitClosed (redis self)]))).
Proof.
  unfold disconnect. intros H.
  destruct (connected self) eqn:Hc; simpl in H.
  2: { unfold mret, M_ret in H. simplify_eq. eauto. }
  right. split; [done|].
  apply bind_Ok_inv in H as (h & w1 & Hh & H). unfold get_heap in Hh. simplify_eq.
  apply bind_Ok_inv in H as (u & w2 & Hp & H).
  unfold mret, M_ret in H. simplify_eq. split; [done|].
  destruct (truthy (w_heap w1) (redis self)) eqn:Ht.
  - right. split; [done|].
    apply bind_Ok_inv in Hp as (u1 & w3 & Hcl & Hp).
    apply pool_close_inv in Hcl as (_ & Ht1).
    apply pool_wait_closed_inv in Hp as (_ & Ht2).
    rewrite Ht2, Ht1, <- app_assoc. done.
  - unfold mret, M_ret in Hp. simplify_eq. eauto.
Qed.

(** C9. If [connected] is true then the [redis] field is not [None]: so
    it is for a newly constructed application, and every [connect] and every
    [disconnect] that returns keeps it so (one that raises leaves the
    application as it was). *)
Theorem connected_implies_handle :
  (∀ cfg dje pre post pub w self w',
      Darq_init cfg dje pre post pub w = (Ok self, w') →
      handle_when_connected self) ∧
  (∀ self p w self' w',
      handle_when_connected self →
      connect self p w = (Ok self', w') →
      handle_when_connected self') ∧
  (∀ self w self' w',
      handle_when_connected self →
      disconnect self w = (Ok self', w') →
      handle_when_connected self').
Proof.
  unfold handle_when_connected, holds_handle. split_and!.
  - intros cfg dje pre post pub w self w' H Hc.
    apply Darq_init_inv in H as [_ H]. destruct (H self eq_refl) as (d & l & H').
    destruct H' as (_ & _ & _ & _ & _ & _ & _ & _ & _ & Hconn).
    rewrite Hc in Hconn. by eapply truthy_not_None.
  - intros self p w self' w' Hinv H Hc.
    apply connect_cases in H as [(? & -> & _) | (_ & _ & [(Ht & -> & _) | (_ & n & s & -> & _)])].
    + by apply Hinv.
    + by eapply truthy_not_None.
    + done.
  - intros self w self' w' Hinv H Hc.
    apply disconnect_cases in H as [(? & -> & _) | (_ & -> & _)]; [by apply Hinv | done].
Qed.

Lemma connected_implies_handle_witness :
  handle_when_connected pooled_app ∧ handle_when_connected live_app ∧
  handle_when_connected (set_connected false live_app).
Proof.
  destruct connected_implies_handle as (Hinit & Hconn & Hdisc).
  split_and!.
  - apply (Hinit 0%nat TD_1_DAY None None None pooled_world pooled_app pooled_built).
    vm_compute. reflexivity.
  - apply (Hconn idle_app VNone demo_world live_app live_world).
    + intros H. vm_compute in H. discriminate H.
    + vm_compute. reflexivity.
  - apply (Hdisc live_app live_world (set_connected false live_app) closed_world).
    + intros _. vm_compute. discriminate.
    + vm_compute. reflexivity.
Defined.

(** C4, as stated, fails: after construction, a [connect()] that
    returns and a [disconnect()], the flag is false and the [redis] field
    still holds the pool. *)
Lemma disconnect_keeps_handle_counterexample :
  reconnect_run demo_world = (Ok disconnected_app, disconnected_world) ∧
  ¬ connected_iff_handle disconnected_app.
Proof.
  split; [vm_compute; reflexivity|].
  intros [_ H]. assert (connected disconnected_app = true) as Hc; [|discriminate Hc].
  apply H. vm_compute. discriminate.
Qed.

(** C4, amended.  [connected] is true exactly when the [redis] field is
    not [None] after construction and after every [connect] that returns
    (called in a state where the flag implies a held handle).  A
    [disconnect] that returns leaves the flag false and the [redis] field as
    it was. *)
Theorem connection_state_after_each_call :
  (∀ cfg dje pre post pub w self w',
      Darq_init cfg dje pre post pub w = (Ok self, w') →
      connected_iff_handle self) ∧
  (∀ self p w self' w',
      handle_when_connected self →
      connect self p w = (Ok self', w') →
      connected_iff_handle self') ∧
  (∀ self w self' w',
      disconnect self w = (Ok self', w') →
      connected self' = false ∧ redis self' = redis self).
Proof.
  unfold connected_iff_handle, handle_when_connected, holds_handle. split_and!.
  - intros cfg dje pre post pub w self w' H.
    apply Darq_init_inv in H as [_ H]. destruct (H self eq_refl) as (d & l & H').
    destruct H' as (_ & _ & _ & _ & _ & _ & _ & _ & Hr & Hconn).
    rewrite Hconn. split; [apply truthy_not_None|].
    intros Hn. rewrite Hr in Hn |- *. simpl in *.
    destruct (truthy (w_heap w') (default VNone (d !! "redis_pool"))) eqn:Ht; done.
  - intros self p w self' w' Hinv H.
    apply connect_cases in H as [(Hc & -> & _) | (_ & Hc & [(Ht & -> & _) | (_ & n & s & -> & _)])].
    + split; [done|]. by intros _.
    + split; [|done]. intros _. by eapply truthy_not_None.
    + done.
  - intros self w self' w' H.
    apply disconnect_cases in H as [(? & -> & _) | (_ & -> & _)]; done.
Qed.

Lemma connection_state_after_each_call_witness :
  connected_iff_handle pooled_app ∧ connected_iff_handle live_app ∧
  (connected (set_connected false live_app) = false ∧
   redis (set_connected false live_app) = redis live_app).
Proof.
  destruct connection_state_after_each_call as (Hinit & Hconn & Hdisc).
  split_and!.
  - apply (Hinit 0%nat TD_1_DAY None None None pooled_world pooled_app pooled_built).
    vm_compute. reflexivity.
  - apply (Hconn idle_app VNone demo_world live_app live_world).
    + intros H. vm_compute in H. discriminate H.
    + vm_compute. reflexivity.
  - apply (Hdisc live_app live_world (set_connected false live_app) closed_world).
    vm_compute. reflexivity.
  - apply (Hdisc live_app live_world (set_connected false live_app) closed_world).
    vm_compute. reflexivity.
Defined.

Lemma establishments_snoc t s : establishments (t ++ [EvCreatePool s]) = S (establishments t).
Proof. unfold establishments. rewrite List.filter_app, length_app. simpl. lia. Qed.

Lemma closes_close_wait t p :
  closes (t ++ [EvClose p; EvWaitClosed p]) = S (closes t).
Proof. unfold closes. rewrite List.filter_app, length_app. simpl. lia. Qed.

(** C5. A [connect()] made while disconnected that returns, followed by
    a second [connect], with or without a pool of its own: the second call
    changes neither the application nor the world, so the handle is the
    first call's and [arq.create_pool] ran once.  A [disconnect()] made
    while connected with a pool held that returns, followed by a second
    [disconnect()]: the second call changes nothing, and [close] ran once. *)
Theorem connect_disconnect_twice :
  (∀ self p1 p2 w self1 w1,
      connected self = false → truthy (w_heap w) p1 = false →
      connect self p1 w = (Ok self1, w1) →
      connect self1 p2 w1 = (Ok self1, w1) ∧
      establishments (w_trace w1) = S (establishments (w_trace w))) ∧
  (∀ self w self1 w1,
      connected self = true → truthy (w_heap w) (redis self) = true →
      disconnect self w = (Ok self1, w1) →
      disconnect self1 w1 = (Ok self1, w1) ∧
      closes (w_trace w1) = S (closes (w_trace w))).
Proof.
  split.
  - intros self p1 p2 w self1 w1 Hc Hp H.
    apply connect_cases in H as [(? & _) | (_ & Hc1 & [(? & _) | (_ & n & s & _ & Ht)])];
      [congruence | congruence |].
    split; [|by rewrite Ht, establishments_snoc].
    unfold connect. by rewrite Hc1.
  - intros self w self1 w1 Hc Hr H.
    apply disconnect_cases in H as [(? & _) | (_ & -> & [(? & _) | (_ & Ht)])];
      [congruence | congruence |].
    split; [|by rewrite Ht, closes_close_wait].
    unfold disconnect. done.
Qed.

Lemma connect_disconnect_twice_witness :
  (connect live_app (VPool 5) live_world = (Ok live_app, live_world) ∧
   establishments (w_trace live_world) = S (establishments (w_trace demo_world))) ∧
  (disconnect (set_connected false live_app) closed_world =
     (Ok (set_connected false live_app), closed_world) ∧
   closes (w_trace closed_world) = S (closes (w_trace live_world))).
Proof.
  destruct connect_disconnect_twice as (Hconn & Hdisc).
  split.
  - apply (Hconn idle_app VNone (VPool 5) demo_world live_app live_world).
    + reflexivity.
    + reflexivity.
    + vm_compute. reflexivity.
  - apply (Hdisc live_app live_world (set_connected false live_app) closed_world).
    + reflexivity.
    + reflexivity.
    + vm_compute. reflexivity.
Defined.

(** ** Enqueueing: [delay] *)

Lemma delay_run self t args kwargs w :
  delay self t args kwargs w =
    let kw0 := kwargs_with_defaults self t (w_heap w) kwargs in
    if negb (connected self) || negb (truthy (w_heap w) (redis self))
    then (Raise DarqConnectionError, w)
    else match on_job_prepublish self with
         | Some hook =>
             let w1 := set_trace (w_trace w ++ [EvPrePublish ∅ (task_arq_function t) args kw0]) w in
             match hook ∅ (task_arq_function t) args kw0 with
             | Ok (m, kw1) =>
                 enqueue_job (redis self) (task_name t) args (kwargs_with_metadata m kw1) w1
             | Raise e => (Raise e, w1)
             end
         | None => enqueue_job (redis self) (task_name t) args kw0 w
         end.
Proof.
  unfold delay, kwargs_with_defaults, kwargs_with_metadata.
  unfold mbind, M_bind, get_heap, raise, emit, lift, mret, M_ret. simpl.
  destruct (negb (connected self) || negb (truthy (w_heap w) (redis self))); [done|].
  destruct (on_job_prepublish self) as [hook|]; simpl; [|done].
  destruct (hook _ _ _ _) as [[m kw1]|e]; done.
Qed.

Lemma enqueue_job_inv pool name args kwargs w r w' :
  enqueue_job pool name args kwargs w = (r, w') →
  (r = Raise AttributeError ∧ w' = w) ∨
  (w_heap w' = w_heap w ∧ w_trace w' = w_trace w ++ [EvEnqueue pool name args kwargs]).
Proof.
  unfold enqueue_job. intros H. destruct pool; try (left; unfold raise in H; by simplify_eq).
  right. minv H; unfold emit in Hm; simplify_eq.
  apply ask_inv in H as (? & ? & _). done.
Qed.

(** What a [delay] call that reaches the enqueue primitive forwards. *)
Lemma delay_enqueue_inv self t args kwargs w r w' evs pool name a kwf :
  delay self t args kwargs w = (r, w') →
  w_trace w' = w_trace w ++ evs →
  EvEnqueue pool name a kwf ∈ evs →
  let kw0 := kwargs_with_defaults self t (w_heap w) kwargs in
  pool = redis self ∧ name = task_name t ∧ a = args ∧
  connected self = true ∧ truthy (w_heap w) (redis self) = true ∧
  match on_job_prepublish self with
  | Some hook =>
      ∃ m kw1, hook ∅ (task_arq_function t) args kw0 = Ok (m, kw1) ∧
               kwf = kwargs_with_metadata m kw1 ∧
               evs = [EvPrePublish ∅ (task_arq_function t) args kw0;
                      EvEnqueue pool name a kwf]
  | None => kwf = kw0 ∧ evs = [EvEnqueue pool name a kwf]
  end.
Proof.
  rewrite delay_run. simpl. intros H Ht Hin.
  destruct (connected self); simpl in H.
  2: { simplify_eq. rewrite <- (app_nil_r (w_trace w')) in Ht at 1.
       apply app_inv_head in Ht. subst. by apply elem_of_nil in Hin. }
  destruct (truthy (w_heap w) (redis self)); simpl in H.
  2: { simplify_eq. rewrite <- (app_nil_r (w_trace w')) in Ht at 1.
       apply app_inv_head in Ht. subst. by apply elem_of_nil in Hin. }
  destruct (on_job_prepublish self) as [hook|].
  - destruct (hook _ _ _ _) as [[m kw1]|e] eqn:Hh.
    + apply enqueue_job_inv in H as [[_ ->]|[_ H]]; simpl in *.
      * apply app_inv_head in Ht. subst.
        apply list_elem_of_singleton in Hin. done.
      * rewrite H, <- app_assoc in Ht. apply app_inv_head in Ht. subst. simpl in Hin.
        apply elem_of_cons in Hin as [?|Hin]; [done|].
        apply list_elem_of_singleton in Hin. simplify_eq. eauto 10.
    + simplify_eq. simpl in Ht. apply app_inv_head in Ht. subst.
      apply list_elem_of_singleton in Hin. done.
  - apply enqueue_job_inv in H as [[_ ->]|[_ H]].
    + rewrite <- (app_nil_r (w_trace w)) in Ht at 1.
      apply app_inv_head in Ht. subst. by apply elem_of_nil in Hin.
    + rewrite H in Ht. apply app_inv_head in Ht. subst.
      apply list_elem_of_singleton in Hin. simplify_eq. done.
Qed.

(** C1. Whatever task [delay] belongs to, a call made while the
    application is not connected raises [DarqConnectionError] and leaves
    the world as it was: nothing is added to the trace, so neither
    [arq.create_pool] nor [enqueue_job] (nor a hook) was called. *)
Theorem delay_requires_connection self t args kwargs w :
  connected self = false →
  delay self t args kwargs w = (Raise DarqConnectionError, w).
Proof.
  intros Hc. rewrite delay_run. simpl. by rewrite Hc.
Qed.

Lemma delay_requires_connection_witness :
  delay add_app add_task add_args add_kwargs demo_world =
    (Raise DarqConnectionError, demo_world).
Proof.
  apply (delay_requires_connection add_app add_task add_args add_kwargs demo_world).
  reflexivity.
Defined.

Lemma kwargs_with_metadata_other m kw k :
  k ≠ "__metadata__" → kwargs_with_metadata m kw !! k = kw !! k.
Proof.
  intros Hk. unfold kwargs_with_metadata. case_match; [|done].
  by rewrite lookup_insert_ne.
Qed.

Lemma kwargs_with_defaults_queue self t h kwargs :
  kwargs_with_defaults self t h kwargs !! "_queue_name" =
    match kwargs !! "_queue_name" with
    | Some v => Some v
    | None => if truthy h (task_queue t) then Some (task_queue t) else None
    end.
Proof.
  unfold kwargs_with_defaults.
  assert (∀ d : dict,
    (if negb (bool_decide ("_expires" ∈ dom d))
     then <["_expires" := py_or h (task_expires t) (default_job_expires self)]> d
     else d) !! "_queue_name" = d !! "_queue_name") as ->.
  { intros d. case_match; [|done]. by rewrite lookup_insert_ne. }
  destruct (kwargs !! "_queue_name") as [v|] eqn:Hq.
  - rewrite bool_decide_eq_true_2 by (apply elem_of_dom; eauto).
    by rewrite andb_false_r.
  - rewrite bool_decide_eq_false_2 by (by apply not_elem_of_dom).
    rewrite andb_true_r. destruct (truthy h (task_queue t)); [|done].
    by rewrite lookup_insert_eq.
Qed.

Lemma kwargs_with_defaults_expires self t h kwargs :
  kwargs_with_defaults self t h kwargs !! "_expires" =
    Some (default (py_or h (task_expires t) (default_job_expires self))
                  (kwargs !! "_expires")).
Proof.
  unfold kwargs_with_defaults.
  set (kw := if truthy h (task_queue t) && _ then _ else _).
  assert (kw !! "_expires" = kwargs !! "_expires") as Hkw.
  { unfold kw. case_match; [|done]. by rewrite lookup_insert_ne. }
  destruct (kwargs !! "_expires") as [v|] eqn:He; simpl.
  - rewrite bool_decide_eq_true_2 by (apply elem_of_dom; rewrite Hkw; eauto). done.
  - rewrite bool_decide_eq_false_2 by (apply not_elem_of_dom; by rewrite Hkw).
    simpl. by rewrite lookup_insert_eq.
Qed.

(** The pre-publish hook is shown the keyword arguments with the task's
    queue and the expiry put in. *)
Lemma delay_prepublish_inv self t args kwargs w r w' evs md f a kw0 :
  delay self t args kwargs w = (r, w') →
  w_trace w' = w_trace w ++ evs →
  EvPrePublish md f a kw0 ∈ evs →
  md = ∅ ∧ f = task_arq_function t ∧ a = args ∧
  kw0 = kwargs_with_defaults self t (w_heap w) kwargs.
Proof.
  rewrite delay_run. simpl. intros H Ht Hin.
  destruct (negb (connected self) || negb (truthy (w_heap w) (redis self))).
  { simplify_eq. rewrite <- (app_nil_r (w_trace w')) in Ht at 1.
    apply app_inv_head in Ht. subst. by apply elem_of_nil in Hin. }
  destruct (on_job_prepublish self) as [hook|].
  - destruct (hook _ _ _ _) as [[m kw1]|e] eqn:Hh.
    + apply enqueue_job_inv in H as [[_ ->]|[_ H]]; simpl in *.
      * apply app_inv_head in Ht. subst.
        apply list_elem_of_singleton in Hin. by simplify_eq.
      * rewrite H, <- app_assoc in Ht. apply app_inv_head in Ht. subst. simpl in Hin.
        apply elem_of_cons in Hin as [?|Hin]; [by simplify_eq|].
        apply list_elem_of_singleton in Hin. done.
    + simplify_eq. simpl in Ht. apply app_inv_head in Ht. subst.
      apply list_elem_of_singleton in Hin. by simplify_eq.
  - apply enqueue_job_inv in H as [[_ ->]|[_ H]].
    + rewrite <- (app_nil_r (w_trace w)) in Ht at 1.
      apply app_inv_head in Ht. subst. by apply elem_of_nil in Hin.
    + rewrite H in Ht. apply app_inv_head in Ht. subst.
      apply list_elem_of_singleton in Hin. done.
Qed.

(** C6, as stated, fails: the pre-publish hook is handed the keyword
    arguments before they are forwarded and may rewrite them.  With a hook
    that sets [kwargs['_expires']] to one minute, the caller's [_expires]
    of five seconds is not what [enqueue_job] receives. *)
Lemma rewritten_expiry_counterexample :
  add_kwargs !! "_expires" = Some (VTimedelta 5) ∧
  delay rewriting_app add_task add_args add_kwargs live_world = rewritten_enqueued ∧
  EvEnqueue (VPool 0) "tasks.add" add_args rewritten_forwarded
    ∈ w_trace rewritten_enqueued.2 ∧
  rewritten_forwarded !! "_expires" = Some (VTimedelta 60).
Proof.
  split_and!; try (vm_compute; reflexivity).
  apply elem_of_cons. right. apply elem_of_cons. right. apply elem_of_cons. left.
  vm_compute. reflexivity.
Qed.

(** C6, amended.  In every [delay] call that reaches [enqueue_job]: the
    keyword arguments shown to the pre-publish hook, if one is configured,
    hold the caller's [_queue_name] and [_expires] as given; without
    [_queue_name], the queue the task declared, and none when it declared
    none; without [_expires], the expiry the task declared, or else the
    application's default.  What is forwarded to [enqueue_job] follows the
    same rules for each of the two entries that the pre-publish hook (if
    any) leaves as it finds it.  Declared means truthy, as in Python's
    [and] and [or]. *)
Theorem delay_forwards_queue_and_expires self t args kwargs w r w' evs pool name a kwf :
  delay self t args kwargs w = (r, w') →
  w_trace w' = w_trace w ++ evs →
  EvEnqueue pool name a kwf ∈ evs →
  (prepublish_keeps self "_queue_name" →
   (∀ v, kwargs !! "_queue_name" = Some v → kwf !! "_queue_name" = Some v) ∧
   (kwargs !! "_queue_name" = None →
      kwf !! "_queue_name" =
        if truthy (w_heap w) (task_queue t) then Some (task_queue t) else None)) ∧
  (prepublish_keeps self "_expires" →
   (∀ v, kwargs !! "_expires" = Some v → kwf !! "_expires" = Some v) ∧
   (kwargs !! "_expires" = None →
      kwf !! "_expires" =
        Some (if truthy (w_heap w) (task_expires t) then task_expires t
              else default_job_expires self))) ∧
  (∀ md f a0 kw0, EvPrePublish md f a0 kw0 ∈ evs →
   (∀ v, kwargs !! "_queue_name" = Some v → kw0 !! "_queue_name" = Some v) ∧
   (∀ v, kwargs !! "_expires" = Some v → kw0 !! "_expires" = Some v) ∧
   (kwargs !! "_queue_name" = None →
      kw0 !! "_queue_name" =
        if truthy (w_heap w) (task_queue t) then Some (task_queue t) else None) ∧
   (kwargs !! "_expires" = None →
      kw0 !! "_expires" =
        Some (if truthy (w_heap w) (task_expires t) then task_expires t
              else default_job_expires self))).
Proof.
  intros H Ht Hin.
  pose proof (delay_enqueue_inv _ _ _ _ _ _ _ _ _ _ _ _ H Ht Hin) as Hinv.
  simpl in Hinv. destruct Hinv as (_ & _ & _ & _ & _ & Hinv).
  assert (∀ k, k = "_queue_name" ∨ k = "_expires" → prepublish_keeps self k →
            kwf !! k = kwargs_with_defaults self t (w_heap w) kwargs !! k) as Hf.
  { intros k Hk Hkeep. destruct (on_job_prepublish self) as [hook|] eqn:Hhook.
    - destruct Hinv as (m & kw1 & Hh & -> & _).
      rewrite kwargs_with_metadata_other by (destruct Hk as [->| ->]; done).
      by eapply Hkeep.
    - by destruct Hinv as [-> _]. }
  split_and!.
  - intros Hq. rewrite (Hf "_queue_name") by auto. rewrite kwargs_with_defaults_queue.
    split; [by intros v ->|by intros ->].
  - intros He. rewrite (Hf "_expires") by auto. rewrite kwargs_with_defaults_expires.
    split; [by intros v ->|by intros ->].
  - intros md f a0 kw0 Hpub.
    destruct (delay_prepublish_inv _ _ _ _ _ _ _ _ _ _ _ _ H Ht Hpub) as (_ & _ & _ & ->).
    rewrite kwargs_with_defaults_queue, kwargs_with_defaults_expires.
    split_and!; [by intros v ->|by intros v ->|by intros ->|by intros ->].
Qed.

Lemma delay_forwards_queue_and_expires_witness :
  add_forwarded !! "_expires" = Some (VTimedelta 5) ∧
  add_forwarded !! "_queue_name" = Some (VStr "math").
Proof.
  destruct (delay_forwards_queue_and_expires add_app_live add_task add_args add_kwargs
              live_world add_enqueued.1 add_enqueued.2 add_published
              (VPool 0) "tasks.add" add_args add_forwarded)
    as (Hqueue & Hexp & _).
  - vm_compute. reflexivity.
  - vm_compute. reflexivity.
  - apply elem_of_cons. right. apply elem_of_cons. left. reflexivity.
  - split.
    + apply Hexp.
      * intros hook md f a kw md' kw' Hh Hr. vm_compute in Hh. by simplify_eq.
      * vm_compute. reflexivity.
    + apply Hqueue.
      * intros hook md f a kw md' kw' Hh Hr. vm_compute in Hh. by simplify_eq.
      * vm_compute. reflexivity.
Defined.

(** ** Running a job: [wrapper] *)

(** [wrapper], step by step, for a registered function and a job context
    that is a mapping. *)
Lemma wrapper_run self function ctx args kwargs w af c0 :
  by_original_coro (registry self) !! Original (fid function) = Some af →
  w_heap w !! ctx = Some (ODict c0) →
  wrapper self function ctx args kwargs w =
    let c := <["metadata" := default (VDict ∅) (kwargs !! "__metadata__")]> c0 in
    let kw := delete "__metadata__" kwargs in
    let w1 := set_heap (<[ctx := ODict c]> (w_heap w)) w in
    match on_job_prerun self with
    | Some hook =>
        let w2 := set_trace (w_trace w ++ [EvPreRun c af args kw]) w1 in
        match hook c af args kw with
        | Raised e c' _ => (Raise e, set_heap (<[ctx := ODict c']> (w_heap w2)) w2)
        | Returned c' kw' =>
            body_and_postrun self function af ctx c' args kw'
              (set_heap (<[ctx := ODict c']> (w_heap w2)) w2)
        end
    | None => body_and_postrun self function af ctx c args kw w1
    end.
Proof.
  intros Hreg Hctx. unfold wrapper, body_and_postrun.
  rewrite Hreg. unfold store_item, load_dict, store, emit, lift, raise.
  unfold mbind, M_bind, mret, M_ret. simpl. rewrite Hctx. simpl.
  destruct (on_job_prerun self) as [pre|]; simpl.
  - rewrite lookup_insert_eq. simpl.
    destruct (pre _ _ _ _) as [c' kw'|e c' kw']; simpl; [|done].
    destruct (body function args kw') as [v|e]; simpl; [|done].
    destruct (on_job_postrun self) as [post|]; simpl; [|done].
    rewrite lookup_insert_eq. simpl.
    destruct (post _ _ _ _ _) as [c'' ?|e c'' ?]; done.
  - destruct (body function args _) as [v|e]; simpl; [|done].
    destruct (on_job_postrun self) as [post|]; simpl; [|done].
    rewrite lookup_insert_eq. simpl.
    destruct (post _ _ _ _ _) as [c'' ?|e c'' ?]; done.
Qed.

(** C3. When the body of the original function raises, the wrapper
    raises the same exception and the post-run hook is not called: the
    trace gains the call of the body and, before it, that of the pre-run
    hook when one is configured (it had returned), and nothing else. *)
Theorem body_failure_skips_postrun self function ctx args kwargs w af c0 e :
  by_original_coro (registry self) !! Original (fid function) = Some af →
  w_heap w !! ctx = Some (ODict c0) →
  let c := <["metadata" := default (VDict ∅) (kwargs !! "__metadata__")]> c0 in
  let kw := delete "__metadata__" kwargs in
  (on_job_prerun self = None →
   body function args kw = Raise e →
   ∃ w', wrapper self function ctx args kwargs w = (Raise e, w') ∧
         w_trace w' = w_trace w ++ [EvBody (fid function) args kw]) ∧
  (∀ hook c' kw',
   on_job_prerun self = Some hook →
   hook c af args kw = Returned c' kw' →
   body function args kw' = Raise e →
   ∃ w', wrapper self function ctx args kwargs w = (Raise e, w') ∧
         w_trace w' = w_trace w ++ [EvPreRun c af args kw; EvBody (fid function) args kw']).
Proof.
  intros Hreg Hctx c kw. split.
  - intros Hpre Hbody. rewrite (wrapper_run _ _ _ _ _ _ _ _ Hreg Hctx). simpl.
    rewrite Hpre. unfold body_and_postrun. fold c kw. rewrite Hbody. eauto.
  - intros hook c' kw' Hpre Hhook Hbody.
    rewrite (wrapper_run _ _ _ _ _ _ _ _ Hreg Hctx). simpl.
    rewrite Hpre. fold c kw. rewrite Hhook. unfold body_and_postrun. rewrite Hbody.
    eexists. split; [done|]. simpl. by rewrite <- app_assoc.
Qed.

Lemma body_and_postrun_sound self function af ctx c1 args kw1 w r w' :
  body_and_postrun self function af ctx c1 args kw1 w = (r, w') →
  w_heap w !! ctx = Some (ODict c1) →
  ∃ evs c2, after_body self function af args c1 kw1 r evs c2 ∧
            w_trace w' = w_trace w ++ evs ∧
            w_heap w' = <[ctx := ODict c2]> (w_heap w).
Proof.
  unfold body_and_postrun. intros H Hctx.
  destruct (body function args kw1) as [v|e] eqn:Hb.
  2: { simplify_eq. eexists _, c1. split_and!; [by constructor|done|].
       simpl. by rewrite insert_id. }
  destruct (on_job_postrun self) as [hook|] eqn:Hp.
  2: { simplify_eq. eexists _, c1. split_and!; [by constructor|done|].
       simpl. by rewrite insert_id. }
  destruct (hook c1 af args kw1 v) as [c2 kw2|e c2 kw2] eqn:Hh; simplify_eq.
  - eexists _, c2. split_and!; [by eapply postrun_returned| |done].
    simpl. by rewrite <- app_assoc.
  - eexists _, c2. split_and!; [by eapply postrun_raised| |done].
    simpl. by rewrite <- app_assoc.
Qed.

(** Every run of [wrapper] for a registered function on a context that
    is a mapping stores the metadata and goes on as [after_store] says. *)
Lemma wrapper_sound self function ctx args kwargs w af c0 r w' :
  by_original_coro (registry self) !! Original (fid function) = Some af →
  w_heap w !! ctx = Some (ODict c0) →
  wrapper self function ctx args kwargs w = (r, w') →
  ∃ evs c2,
    after_store self function af args
      (<["metadata" := default (VDict ∅) (kwargs !! "__metadata__")]> c0)
      (delete "__metadata__" kwargs) r evs c2 ∧
    w_trace w' = w_trace w ++ evs ∧
    w_heap w' = <[ctx := ODict c2]> (w_heap w).
Proof.
  intros Hreg Hctx. rewrite (wrapper_run _ _ _ _ _ _ _ _ Hreg Hctx). simpl.
  set (c := <["metadata" := _]> c0). set (kw := delete _ kwargs).
  destruct (on_job_prerun self) as [hook|] eqn:Hpre.
  - destruct (hook c af args kw) as [c1 kw1|e c1 kw1] eqn:Hh.
    + intros H. apply body_and_postrun_sound in H as (evs & c2 & Hrun & Ht & Hh');
        [|simpl; by rewrite lookup_insert_eq].
      exists (EvPreRun c af args kw :: evs), c2. split_and!.
      * by eapply prerun_returned.
      * rewrite Ht. simpl. by rewrite <- app_assoc.
      * rewrite Hh'. simpl. by rewrite !insert_insert_eq.
    + intros H. simplify_eq. eexists _, c1. split_and!; [by eapply prerun_raised|done|].
      simpl. by rewrite insert_insert_eq.
  - intros H. apply body_and_postrun_sound in H as (evs & c2 & Hrun & Ht & Hh');
      [|simpl; by rewrite lookup_insert_eq].
    exists evs, c2. split_and!; [by eapply no_prerun|done|].
    rewrite Hh'. simpl. by rewrite insert_insert_eq.
Qed.

(** A run of [wrapper] that does not get as far as storing the metadata
    leaves the world as it was. *)
Lemma wrapper_cases self function ctx args kwargs w r w' :
  wrapper self function ctx args kwargs w = (r, w') →
  w' = w ∨
  ∃ af c0, by_original_coro (registry self) !! Original (fid function) = Some af ∧
           w_heap w !! ctx = Some (ODict c0).
Proof.
  intros H.
  destruct (by_original_coro (registry self) !! Original (fid function)) as [af|] eqn:Hreg.
  2: { left. unfold wrapper in H. rewrite Hreg in H.
       unfold mbind, M_bind, raise in H. by simplify_eq. }
  destruct (w_heap w !! ctx) as [[c0| |]|] eqn:Hctx; [right; eauto|left..].
  all: unfold wrapper, store_item, load_dict in H; rewrite Hreg in H;
       unfold mbind, M_bind, mret, M_ret in H; simpl in H; rewrite Hctx in H;
       by simplify_eq.
Qed.

Ltac elem_inv H :=
  repeat (apply elem_of_cons in H as [H|H]; [simplify_eq|]);
  try (apply elem_of_nil in H; destruct H).

(** C8, as stated, fails: the pre-run hook is handed the keyword
    arguments before the body is called and may write to them.  With a hook
    that sets [kwargs['__metadata__']], the body of a job that came without
    that key receives it. *)
Lemma restored_key_counterexample :
  by_original_coro (registry restoring_app) !! Original (fid add_function) =
    Some (task_arq_function add_task) ∧
  w_heap job_world !! 9%nat = Some (ODict ∅) ∧
  (∅ : dict) !! "__metadata__" = None ∧
  wrapper restoring_app add_function 9 add_args ∅ job_world = restored_run ∧
  restored_run.1 = Ok (VInt 3) ∧
  EvBody 1 add_args {[ "__metadata__" := VDict ∅ ]} ∈ w_trace restored_run.2.
Proof.
  split_and!; [vm_compute; reflexivity..|].
  apply elem_of_cons. right. apply elem_of_cons. left. vm_compute. reflexivity.
Qed.

(** C8, amended.  A call of the wrapper (for a registered function, on a
    job context that is a mapping) whose keyword arguments have no
    [__metadata__] entry stores the empty mapping under [metadata] in the
    context and goes on: a pre-run hook, when configured, is called first,
    with that context and the keyword arguments as they came; the body is
    called next, unless the pre-run hook raised, with the keyword arguments
    as the pre-run hook left them, so without [__metadata__] unless that
    hook put it there; when the body returns, its value is the result
    unless the post-run hook raises; an exception that comes out is one
    that a hook or the body raised.  The context ends up with the empty
    mapping under [metadata] when there are no hooks, or when the hooks
    leave that entry alone. *)
Theorem wrapper_missing_metadata self function ctx args kwargs w af c0 :
  by_original_coro (registry self) !! Original (fid function) = Some af →
  w_heap w !! ctx = Some (ODict c0) →
  kwargs !! "__metadata__" = None →
  let c := <["metadata" := VDict ∅]> c0 in
  ∃ r w' evs c',
    wrapper self function ctx args kwargs w = (r, w') ∧
    w_trace w' = w_trace w ++ evs ∧
    w_heap w' = <[ctx := ODict c']> (w_heap w) ∧
    (∀ hook, on_job_prerun self = Some hook →
       ∃ rest, evs = EvPreRun c af args kwargs :: rest) ∧
    (on_job_prerun self = None →
       ∃ rest, evs = EvBody (fid function) args kwargs :: rest) ∧
    (∀ hook c1 kw1,
       on_job_prerun self = Some hook → hook c af args kwargs = Returned c1 kw1 →
       ∃ rest, evs = EvPreRun c af args kwargs :: EvBody (fid function) args kw1 :: rest) ∧
    (∀ i a k, EvBody i a k ∈ evs →
       i = fid function ∧ a = args ∧
       ((∀ hook, on_job_prerun self = Some hook →
           kwargs_left (hook c af args kwargs) !! "__metadata__" = None) →
        k !! "__metadata__" = None) ∧
       (prerun_keeps_kwargs self → k = kwargs)) ∧
    (∀ i a k v, EvBody i a k ∈ evs → body function a k = Ok v →
       r = Ok v ∨
       ∃ hook c1 e c2 k2, on_job_postrun self = Some hook ∧
                          hook c1 af a k v = Raised e c2 k2 ∧ r = Raise e) ∧
    (∀ e, r = Raise e → raised_by_callee self function af args e) ∧
    (on_job_prerun self = None → on_job_postrun self = None → c' = c) ∧
    (run_hooks_keep_metadata self → c' !! "metadata" = Some (VDict ∅)).
Proof.
  intros Hreg Hctx Hkey c.
  destruct (wrapper self function ctx args kwargs w) as [r w'] eqn:H.
  apply (wrapper_sound _ _ _ _ _ _ _ _ _ _ Hreg Hctx) in H as (evs & c' & Hrun & Ht & Hh).
  rewrite Hkey, delete_id in Hrun by done. simpl in Hrun. fold c in Hrun.
  exists r, w', evs, c'. split_and!; [done|done|done|..].
  - intros hook Hp.
    inversion Hrun as [hk e c1 kw1 Hp' Hr|hk c1 kw1 r' evs' c2 Hp' Hr Hb|r' evs' c2 Hp' Hb];
      subst; [eauto|eauto|congruence].
  - intros Hp.
    inversion Hrun as [hk e c1 kw1 Hp' Hr|hk c1 kw1 r' evs' c2 Hp' Hr Hb|r' evs' c2 Hp' Hb];
      subst; [congruence|congruence|].
    inversion Hb; subst; eauto.
  - intros hook c1 kw1 Hp Hr.
    inversion Hrun as [hk e c1' kw1' Hp' Hr'|hk c1' kw1' r' evs' c2 Hp' Hr' Hb|r' evs' c2 Hp' Hb];
      subst; [congruence| |congruence].
    rewrite Hp in Hp'. simplify_eq. rewrite Hr in Hr'. simplify_eq.
    inversion Hb; subst; eauto.
  - intros i a k Hin.
    inversion Hrun as [hk e c1 kw1 Hp Hr|hk c1 kw1 r' evs' c2 Hp Hr Hb|r' evs' c2 Hp Hb]; subst.
    + by elem_inv Hin.
    + apply elem_of_cons in Hin as [?|Hin]; [by simplify_eq|].
      assert (i = fid function ∧ a = args ∧ k = kw1) as (-> & -> & ->)
        by (inversion Hb; subst; by elem_inv Hin).
      split_and!; [done|done| |].
      * intros Hk. specialize (Hk _ Hp). by rewrite Hr in Hk.
      * intros Hk. by eapply Hk.
    + assert (i = fid function ∧ a = args ∧ k = kwargs) as (-> & -> & ->)
        by (inversion Hb; subst; by elem_inv Hin).
      done.
  - intros i a k v Hin Hbody.
    assert (∀ c1 kw1 r evs c2, after_body self function af args c1 kw1 r evs c2 →
              EvBody i a k ∈ evs →
              r = Ok v ∨ ∃ hook c1 e c2 k2, on_job_postrun self = Some hook ∧
                          hook c1 af a k v = Raised e c2 k2 ∧ r = Raise e) as Hcase.
    { intros c1 kw1 r' evs' c2 Hb Hin'.
      inversion Hb; subst; elem_inv Hin'; try congruence.
      - left. congruence.
      - right. assert (v0 = v) as -> by congruence. eauto 10.
      - left. congruence. }
    inversion Hrun as [hk e c1 kw1 Hp Hr|hk c1 kw1 r' evs' c2 Hp Hr Hb|r' evs' c2 Hp Hb]; subst.
    + by elem_inv Hin.
    + apply elem_of_cons in Hin as [?|Hin]; [by simplify_eq|]. by eapply Hcase.
    + by eapply Hcase.
  - intros e ->. unfold raised_by_callee.
    inversion Hrun as [hk e' c1 kw1 Hp Hr|hk c1 kw1 r' evs' c2 Hp Hr Hb|r' evs' c2 Hp Hb]; subst.
    + left. eauto 10.
    + inversion Hb; subst; [right; left; eauto | right; right; eauto 10].
    + inversion Hb; subst; [right; left; eauto | right; right; eauto 10].
  - intros Hp Hq.
    inversion Hrun as [hk e c1 kw1 Hp' Hr|hk c1 kw1 r' evs' c2 Hp' Hr Hb|r' evs' c2 Hp' Hb];
      subst; [congruence|congruence|].
    inversion Hb; subst; congruence.
  - intros [Hpre Hpost].
    assert (∀ c1 kw1 r evs c2, after_body self function af args c1 kw1 r evs c2 →
              c1 !! "metadata" = Some (VDict ∅) → c2 !! "metadata" = Some (VDict ∅)) as Hcase.
    { intros c1 kw1 r' evs' c2 Hb Hc1. inversion Hb as [| |v hk e c3 k3 ? Hq Hr|v hk c3 k3 ? Hq Hr];
        subst; try done.
      - specialize (Hpost _ c1 af args kw1 v Hq). rewrite Hr in Hpost. simpl in Hpost. congruence.
      - specialize (Hpost _ c1 af args kw1 v Hq). rewrite Hr in Hpost. simpl in Hpost. congruence. }
    inversion Hrun as [hk e c1 kw1 Hp Hr|hk c1 kw1 r' evs' c2 Hp Hr Hb|r' evs' c2 Hp Hb]; subst.
    + specialize (Hpre _ c af args kwargs Hp). rewrite Hr in Hpre. simpl in Hpre.
      rewrite Hpre. unfold c. by rewrite lookup_insert_eq.
    + eapply Hcase; [done|].
      specialize (Hpre _ c af args kwargs Hp). rewrite Hr in Hpre. simpl in Hpre.
      rewrite Hpre. unfold c. by rewrite lookup_insert_eq.
    + eapply Hcase; [done|]. unfold c. by rewrite lookup_insert_eq.
Qed.

Lemma forwarded_metadata (m kw1 : dict) :
  (m = ∅ → kw1 !! "__metadata__" = None) →
  default (VDict ∅) (kwargs_with_metadata m kw1 !! "__metadata__") = VDict m.
Proof.
  intros Hres. unfold kwargs_with_metadata, truthy.
  case_bool_decide as Hm; simpl.
  - apply dom_empty_inv_L in Hm. subst. by rewrite Hres.
  - by rewrite lookup_insert_eq.
Qed.

(** C2, as stated, fails: the pre-run hook is handed the job context
    before the post-run hook and may overwrite its [metadata] entry.  With
    a pre-run hook that does, the post-run hook of the job enqueued by
    [add_enqueued] finds another mapping than the one the pre-publish hook
    produced. *)
Lemma stamped_metadata_counterexample :
  on_job_prepublish stamping_app = Some trace_id_hook ∧
  delay stamping_app add_task add_args add_kwargs live_world = add_enqueued ∧
  w_trace add_enqueued.2 = w_trace live_world ++ add_published ∧
  trace_id_hook ∅ (task_arq_function add_task) add_args
      (<["_queue_name" := VStr "math"]> add_kwargs) =
    Ok ({[ "trace_id" := VStr "abc" ]}, <["_queue_name" := VStr "math"]> add_kwargs) ∧
  add_job_kwargs !! "__metadata__" = add_forwarded !! "__metadata__" ∧
  wrapper stamping_app add_function 9 add_args add_job_kwargs job_world = stamped_run ∧
  EvPostRun stamped_ctx (task_arq_function add_task) add_args ∅ (VInt 3)
    ∈ w_trace stamped_run.2 ∧
  stamped_ctx !! "metadata" ≠ Some (VDict {[ "trace_id" := VStr "abc" ]}).
Proof.
  split_and!; try (vm_compute; reflexivity).
  - apply elem_of_cons. right. apply elem_of_cons. right. apply elem_of_cons. left.
    vm_compute. reflexivity.
  - vm_compute. intros H. discriminate H.
Qed.

(** C2, amended.  In a [delay] call with a pre-publish hook configured
    that reaches [enqueue_job], let [m] be the metadata mapping as the hook
    left it, where [__metadata__] in the keyword arguments is set by nobody
    but [delay] (so it is absent when [m] is empty).  When the wrapper is
    then run on the forwarded arguments, with keyword arguments that carry
    the forwarded [__metadata__] entry: the pre-run hook, which is called
    first when one is configured, finds [m] in the [metadata] entry of the
    job context; so does the post-run hook, provided the pre-run hook (if
    any) left that entry as it found it in this run; and so does whoever
    reads the context after the call, when the run hooks leave that entry
    alone. *)
Theorem metadata_round_trip
    self t args kwargs w r w' evs md0 f0 a0 kw0 hook m kw1 pool name a kwf
    self2 function ctx kj w2 r2 w2' evs2 :
  on_job_prepublish self = Some hook →
  delay self t args kwargs w = (r, w') →
  w_trace w' = w_trace w ++ evs →
  EvPrePublish md0 f0 a0 kw0 ∈ evs →
  hook md0 f0 a0 kw0 = Ok (m, kw1) →
  EvEnqueue pool name a kwf ∈ evs →
  (m = ∅ → kw1 !! "__metadata__" = None) →
  kj !! "__metadata__" = kwf !! "__metadata__" →
  wrapper self2 function ctx a kj w2 = (r2, w2') →
  w_trace w2' = w_trace w2 ++ evs2 →
  (∀ c f a' k, EvPreRun c f a' k ∈ evs2 → c !! "metadata" = Some (VDict m)) ∧
  (∀ c f a' k v, EvPostRun c f a' k v ∈ evs2 →
     (∀ hook2 c0 k0, on_job_prerun self2 = Some hook2 → EvPreRun c0 f a' k0 ∈ evs2 →
        ctx_left (hook2 c0 f a' k0) !! "metadata" = c0 !! "metadata") →
     c !! "metadata" = Some (VDict m)) ∧
  (∀ af c0,
     by_original_coro (registry self2) !! Original (fid function) = Some af →
     w_heap w2 !! ctx = Some (ODict c0) →
     (∀ hook2, on_job_prerun self2 = Some hook2 →
        ∃ rest, evs2 = EvPreRun (<["metadata" := VDict m]> c0) af a
                         (delete "__metadata__" kj) :: rest) ∧
     (run_hooks_keep_metadata self2 →
        ∃ c', w_heap w2' !! ctx = Some (ODict c') ∧ c' !! "metadata" = Some (VDict m))).
Proof.
  intros Hhook Hdelay Ht Hpub Hm Henq Hres Hkj Hwrap Ht2.
  pose proof (delay_enqueue_inv _ _ _ _ _ _ _ _ _ _ _ _ Hdelay Ht Henq) as Hinv.
  simpl in Hinv. destruct Hinv as (_ & _ & _ & _ & _ & Hinv).
  rewrite Hhook in Hinv. destruct Hinv as (m' & kw1' & Hh & -> & ->).
  elem_inv Hpub. rewrite Hh in Hm. simplify_eq.
  pose proof (forwarded_metadata m kw1 Hres) as Hfw. rewrite <- Hkj in Hfw.
  destruct (wrapper_cases _ _ _ _ _ _ _ _ Hwrap) as [->|(af & c0 & Hreg & Hctx)].
  { rewrite <- (app_nil_r (w_trace w2)) in Ht2 at 1. apply app_inv_head in Ht2. subst.
    split_and!; [intros ???? Hin; by elem_inv Hin|intros ????? Hin; by elem_inv Hin|].
    intros af c0 Hreg Hctx. exfalso.
    apply (wrapper_sound _ _ _ _ _ _ _ _ _ _ Hreg Hctx) in Hwrap
      as (evs & c2 & Hrun & Ht3 & _).
    rewrite <- (app_nil_r (w_trace w2)) in Ht3 at 1. apply app_inv_head in Ht3. subst.
    inversion Hrun as [| |??? _ Hb]; subst. inversion Hb. }
  apply (wrapper_sound _ _ _ _ _ _ _ _ _ _ Hreg Hctx) in Hwrap
    as (evs & c2 & Hrun & Ht2' & Hh2).
  rewrite Ht2' in Ht2. apply app_inv_head in Ht2. subst evs2.
  rewrite Hfw in Hrun.
  set (c := <["metadata" := VDict m]> c0) in *.
  assert (c !! "metadata" = Some (VDict m)) as Hc by (unfold c; by rewrite lookup_insert_eq).
  assert (∀ c1 kw r evs c3,
    after_body self2 function af a c1 kw r evs c3 →
    (∀ c' f a' k v, EvPostRun c' f a' k v ∈ evs → c' = c1 ∧ f = af ∧ a' = a) ∧
    (∀ c' f a' k, EvPreRun c' f a' k ∈ evs → False) ∧
    (postrun_keeps_metadata self2 → c3 !! "metadata" = c1 !! "metadata")) as Hbody.
  { intros c1 kw r' evs' c3 Hb.
    inversion Hb as [| |v hk e c4 k4 ? Hq Hr|v hk c4 k4 ? Hq Hr]; subst; split_and!;
      try (intros ????? Hin; by elem_inv Hin); try (intros ???? Hin; by elem_inv Hin);
      try done.
    - intros Hpost. specialize (Hpost _ c1 af a kw v Hq). by rewrite Hr in Hpost.
    - intros Hpost. specialize (Hpost _ c1 af a kw v Hq). by rewrite Hr in Hpost. }
  inversion Hrun as [hk e c1 kw1' Hp Hr|hk c1 kw1' r' evs' c3 Hp Hr Hb|r' evs' c3 Hp Hb]; subst.
  - split_and!.
    + intros ???? Hin. by elem_inv Hin.
    + intros ????? Hin. by elem_inv Hin.
    + intros af' c0' Hreg' Hctx'. simplify_eq. split; [eauto|].
      intros [Hpre _]. exists c2. split; [by rewrite Hh2, lookup_insert_eq|].
      specialize (Hpre _ c af a (delete "__metadata__" kj) Hp). rewrite Hr in Hpre.
      simpl in Hpre. by rewrite Hpre.
  - destruct (Hbody _ _ _ _ _ Hb) as (Hev & Hno & Hfin).
    split_and!.
    + intros ???? Hin. apply elem_of_cons in Hin as [?|Hin]; [by simplify_eq|].
      by apply Hno in Hin.
    + intros c' f a' k v Hin Hkept.
      apply elem_of_cons in Hin as [?|Hin]; [done|].
      destruct (Hev _ _ _ _ _ Hin) as (-> & -> & ->).
      specialize (Hkept hk c (delete "__metadata__" kj) Hp ltac:(by left)).
      rewrite Hr in Hkept. simpl in Hkept. by rewrite Hkept.
    + intros af' c0' Hreg' Hctx'. simplify_eq. split; [eauto|].
      intros [Hpre Hpost]. exists c2. split; [by rewrite Hh2, lookup_insert_eq|].
      rewrite (Hfin Hpost).
      specialize (Hpre _ c af a (delete "__metadata__" kj) Hp). rewrite Hr in Hpre.
      simpl in Hpre. by rewrite Hpre.
  - destruct (Hbody _ _ _ _ _ Hb) as (Hev & Hno & Hfin).
    split_and!.
    + intros ???? Hin. by apply Hno in Hin.
    + intros c' f a' k v Hin _. by destruct (Hev _ _ _ _ _ Hin) as (-> & _).
    + intros af' c0' Hreg' Hctx'. simplify_eq. split; [congruence|].
      intros [_ Hpost]. exists c2. split; [by rewrite Hh2, lookup_insert_eq|].
      by rewrite (Hfin Hpost).
Qed.

(** The reservation of [__metadata__] is needed for C2: a caller's own
    [__metadata__] reaches the job context when the hook leaves the
    metadata mapping empty. *)
Remark metadata_of_the_caller_is_forwarded m kw1 v :
  m = ∅ → kw1 !! "__metadata__" = Some v →
  default (VDict ∅) (kwargs_with_metadata m kw1 !! "__metadata__") = v.
Proof.
  intros -> Hv. unfold kwargs_with_metadata, truthy.
  rewrite bool_decide_eq_true_2 by apply dom_empty_L. simpl. by rewrite Hv.
Qed.

Lemma worker_app_keeps_metadata : run_hooks_keep_metadata worker_app.
Proof.
  split.
  - intros hook c f a k Hh. vm_compute in Hh. by simplify_eq.
  - intros hook c f a k v Hh. vm_compute in Hh. by simplify_eq.
Qed.

Lemma body_failure_skips_postrun_witness :
  ∃ w', wrapper worker_app failing_function 9 [] ∅ job_world = (Raise (Failure "boom"), w') ∧
        w_trace w' =
          w_trace job_world ++
          [EvPreRun (<["metadata" := default (VDict ∅) ((∅ : dict) !! "__metadata__")]> ∅)
             fail_arq_function [] (delete "__metadata__" ∅);
           EvBody (fid failing_function) [] (delete "__metadata__" ∅)].
Proof.
  apply (proj2 (body_failure_skips_postrun worker_app failing_function 9 [] ∅ job_world
                  fail_arq_function ∅ (Failure "boom") ltac:(vm_compute; reflexivity)
                  ltac:(vm_compute; reflexivity))
           quiet_prerun (<["metadata" := VDict ∅]> ∅) (delete "__metadata__" ∅)).
  - reflexivity.
  - reflexivity.
  - reflexivity.
Defined.

Lemma wrapper_missing_metadata_witness :
  ∃ r w' evs c',
    wrapper worker_app add_function 9 add_args ∅ job_world = (r, w') ∧
    w_heap w' = <[9%nat := ODict c']> (w_heap job_world) ∧
    c' !! "metadata" = Some (VDict ∅) ∧
    (∃ rest, evs = EvPreRun (<["metadata" := VDict ∅]> ∅) (task_arq_function add_task)
                     add_args ∅ :: EvBody (fid add_function) add_args ∅ :: rest).
Proof.
  destruct (wrapper_missing_metadata worker_app add_function 9 add_args ∅ job_world
              (task_arq_function add_task) ∅)
    as (r & w' & evs & c' & Hrun & _ & Hctx & _ & _ & Hbody & _ & _ & _ & _ & Hmeta).
  - vm_compute. reflexivity.
  - vm_compute. reflexivity.
  - vm_compute. reflexivity.
  - exists r, w', evs, c'. split_and!; [exact Hrun | exact Hctx | |].
    + apply Hmeta, worker_app_keeps_metadata.
    + apply (Hbody quiet_prerun (<["metadata" := VDict ∅]> ∅) ∅); reflexivity.
Defined.

Lemma metadata_round_trip_witness :
  add_job_ctx !! "metadata" = Some (VDict {[ "trace_id" := VStr "abc" ]}).
Proof.
  destruct (metadata_round_trip add_app_live add_task add_args add_kwargs live_world
              add_enqueued.1 add_enqueued.2 add_published
              ∅ (task_arq_function add_task) add_args
              (<["_queue_name" := VStr "math"]> add_kwargs)
              trace_id_hook {[ "trace_id" := VStr "abc" ]}
              (<["_queue_name" := VStr "math"]> add_kwargs)
              (VPool 0) "tasks.add" add_args add_forwarded
              worker_app add_function 9%nat add_job_kwargs job_world
              add_job_run.1 add_job_run.2 add_job_trace)
    as (Hpre & _ & _).
  - reflexivity.
  - vm_compute. reflexivity.
  - vm_compute. reflexivity.
  - apply elem_of_cons. left. vm_compute. reflexivity.
  - vm_compute. reflexivity.
  - apply elem_of_cons. right. apply elem_of_cons. left. reflexivity.
  - intros Hm. apply (f_equal (λ d : dict, d !! "trace_id")) in Hm.
    vm_compute in Hm. discriminate Hm.
  - vm_compute. reflexivity.
  - vm_compute. reflexivity.
  - vm_compute. reflexivity.
  - apply (Hpre add_job_ctx (task_arq_function add_task) add_args ∅).
    apply elem_of_cons. left. reflexivity.
Defined.

(** ** Cron entries and the constructor *)

Lemma cron_list_inv self h cur :
  cron_list self h = Some cur →
  ∃ d l, h !! config self = Some (ODict d) ∧ d !! "cron_jobs" = Some (VRef l) ∧
         h !! l = Some (OList cur).
Proof.
  unfold cron_list. intros H. repeat case_match; simplify_eq. eauto.
Qed.

(** One round of the loop for an entry that is registered. *)
Lemma add_cron_jobs_bound self a j af rest w d l cur :
  w_heap w !! a = Some (OCron j) →
  by_original_coro (registry self) !! cj_coroutine j = Some af →
  w_heap w !! config self = Some (ODict d) →
  d !! "cron_jobs" = Some (VRef l) →
  w_heap w !! l = Some (OList cur) →
  add_cron_jobs self (VRef a :: rest) w =
    add_cron_jobs self rest
      (set_heap (<[l := OList (cur ++ [VRef a])]>
                   (<[a := OCron {| cj_name := cj_name j;
                                    cj_coroutine := af_coroutine af;
                                    cj_schedule := cj_schedule j |}]> (w_heap w))) w).
Proof.
  intros Ha Hreg Hcfg Hd Hl.
  assert (config self ≠ a) as Hne1 by (intros Heq; rewrite Heq in Hcfg; congruence).
  assert (l ≠ a) as Hne2 by (intros Heq; rewrite Heq in Hl; congruence).
  simpl. unfold mbind, M_bind, get_heap, store, load_item, load_dict, list_append, mret, M_ret.
  simpl. rewrite Ha, Hreg. simpl. unfold mbind, M_bind, mret, M_ret. simpl.
  rewrite lookup_insert_ne, Hcfg by done. rewrite Hd. simpl.
  rewrite lookup_insert_ne, Hl by done. done.
Qed.

(** One round of the loop for an entry that is not bound. *)
Lemma add_cron_jobs_refused self job rest w :
  (∀ a j, job = VRef a → w_heap w !! a = Some (OCron j) →
          by_original_coro (registry self) !! cj_coroutine j = None) →
  add_cron_jobs self (job :: rest) w = (Raise DarqException, w).
Proof.
  intros H. simpl. unfold mbind, M_bind, get_heap, raise. simpl.
  destruct job as [| | | | | | | | | |a]; try done.
  destruct (w_heap w !! a) as [[| |j]|] eqn:Ha; try done.
  by rewrite (H a j eq_refl Ha).
Qed.

Lemma entry_bound_dec self (h : heap) job :
  (∃ a j af, job = VRef a ∧ h !! a = Some (OCron j) ∧
             by_original_coro (registry self) !! cj_coroutine j = Some af) ∨
  (∀ a j, job = VRef a → h !! a = Some (OCron j) →
          by_original_coro (registry self) !! cj_coroutine j = None).
Proof.
  destruct job as [| | | | | | | | | |a]; try (right; intros ???; done).
  destruct (h !! a) as [[| |j]|] eqn:Ha; try (right; intros ????; simplify_eq; done).
  destruct (by_original_coro (registry self) !! cj_coroutine j) as [af|] eqn:Hr.
  - left. eauto 10.
  - right. intros ????. by simplify_eq.
Qed.

(** A call of [add_cron_jobs], entry by entry: [n] entries are bound and
    appended, then the call returns, or the next entry is refused. *)
Lemma add_cron_jobs_inv self jobs : ∀ w cur r w',
  cron_list self (w_heap w) = Some cur →
  add_cron_jobs self jobs w = (r, w') →
  ∃ n, (n ≤ length jobs)%nat ∧
       cron_list self (w_heap w') = Some (cur ++ take n jobs) ∧
       (∀ i v, (i < n)%nat → jobs !! i = Some v → bound_entry self (w_heap w') v) ∧
       (r = Ok tt ∧ n = length jobs ∨
        r = Raise DarqException ∧
        ∃ v, jobs !! n = Some v ∧ refused_entry self (w_heap w') v) ∧
       (∀ i v, jobs !! i = Some v → unregistered self (w_heap w) v → (n ≤ i)%nat) ∧
       (n = 0%nat → w' = w) ∧
       (∀ v, bound_entry self (w_heap w) v → bound_entry self (w_heap w') v) ∧
       quiet w w'.
Proof.
  induction jobs as [|job rest IH]; intros w cur r w' Hcur Hrun.
  { unfold add_cron_jobs, mret, M_ret in Hrun. simplify_eq.
    exists 0%nat. rewrite app_nil_r.
    split_and!; try done; try (intros; lia); by left. }
  destruct (cron_list_inv _ _ _ Hcur) as (d & l & Hcfg & Hd & Hl).
  destruct (entry_bound_dec self (w_heap w) job) as [(a & j & af & -> & Ha & Hreg)|Hnb].
  - assert (config self ≠ a) as Hne1 by (intros Heq; rewrite Heq in Hcfg; congruence).
    assert (l ≠ a) as Hne2 by (intros Heq; rewrite Heq in Hl; congruence).
    assert (config self ≠ l) as Hne3 by (intros Heq; rewrite Heq in Hcfg; congruence).
    rewrite (add_cron_jobs_bound _ _ _ _ _ _ _ _ _ Ha Hreg Hcfg Hd Hl) in Hrun.
    set (w1 := set_heap _ w) in Hrun.
    assert (∀ b, b ≠ a → b ≠ l → w_heap w1 !! b = w_heap w !! b) as Hframe.
    { intros b ? ?. unfold w1. simpl. rewrite lookup_insert_ne by done.
      by rewrite lookup_insert_ne. }
    assert (∀ v, bound_entry self (w_heap w) v → bound_entry self (w_heap w1) v) as Hkeep.
    { intros v (b & jb & key & afb & -> & Hb & Hkey & Hco).
      destruct (decide (b = a)) as [->|Hba].
      - exists a, (rebound j (af_coroutine af)), (cj_coroutine j), af.
        split_and!; try done. unfold w1. simpl.
        rewrite lookup_insert_ne by done. by rewrite lookup_insert_eq.
      - exists b, jb, key, afb. split_and!; try done.
        rewrite Hframe; [done|done|]. intros ->. congruence. }
    apply (IH _ (cur ++ [VRef a])) in Hrun
      as (n & Hn & Hlist & Hpre & Hres & Hfirst & _ & Hb' & Hq).
    + exists (S n). split_and!.
      * simpl. lia.
      * rewrite Hlist. simpl. by rewrite <- app_assoc.
      * intros i v Hi Hv. destruct i as [|i]; simpl in Hv.
        -- simplify_eq. apply Hb'.
           exists a, (rebound j (af_coroutine af)), (cj_coroutine j), af.
           split_and!; try done. unfold w1. simpl.
           rewrite lookup_insert_ne by done. by rewrite lookup_insert_eq.
        -- apply (Hpre i v); [lia|done].
      * destruct Hres as [[-> ->]|[-> Hv]]; [by left|by right].
      * intros i v Hv Hun. destruct i as [|i]; simpl in Hv.
        -- simplify_eq. destruct Hun as (b & jb & ? & Hb & Hnone). simplify_eq; congruence.
        -- apply le_n_S. apply (Hfirst i v Hv).
           destruct Hun as (b & jb & -> & Hb & Hnone). exists b, jb.
           split_and!; [done| |done]. rewrite Hframe; [done| |].
           ++ intros ->. congruence.
           ++ intros ->. congruence.
      * intros Hz. lia.
      * intros v Hv. by apply Hb', Hkeep.
      * done.
    + unfold cron_list, w1. simpl.
      rewrite lookup_insert_ne, lookup_insert_ne, Hcfg, Hd, lookup_insert_eq by done. done.
  - rewrite (add_cron_jobs_refused _ _ _ _ Hnb) in Hrun. simplify_eq.
    exists 0%nat. rewrite app_nil_r.
    split_and!; try done; try (intros; lia).
    right. split; [done|]. exists job. done.
Qed.

(** C7, amended.  When some entry of a cron-binding call is a [CronJob]
    whose function is not in the registry, the call raises [DarqException]
    at the first entry it cannot bind, which comes no later than the first
    unregistered one; the [n] entries before that one have by then been
    rewritten, each to the coroutine of a registered descriptor, and
    appended to [config['cron_jobs']]; so the list is as it was only when
    no entry was bound before the failure, as when the first entry is an
    unregistered one, and then nothing at all has changed. *)
Theorem add_cron_jobs_stops_at_unregistered self jobs w cur :
  cron_list self (w_heap w) = Some cur →
  Exists (unregistered self (w_heap w)) jobs →
  ∃ n job w',
    add_cron_jobs self jobs w = (Raise DarqException, w') ∧
    jobs !! n = Some job ∧
    refused_entry self (w_heap w') job ∧
    (∀ i v, jobs !! i = Some v → unregistered self (w_heap w) v → (n ≤ i)%nat) ∧
    (∀ i v, (i < n)%nat → jobs !! i = Some v → bound_entry self (w_heap w') v) ∧
    cron_list self (w_heap w') = Some (cur ++ take n jobs) ∧
    (n = 0%nat → w' = w) ∧
    (∀ j rest, jobs = j :: rest → unregistered self (w_heap w) j → w' = w).
Proof.
  intros Hcur Hex.
  destruct (add_cron_jobs self jobs w) as [r w'] eqn:Hrun.
  destruct (add_cron_jobs_inv _ _ _ _ _ _ Hcur Hrun)
    as (n & Hn & Hlist & Hpre & Hres & Hfirst & Hzero & _ & _).
  apply Exists_exists in Hex as (v & Hin & Hun).
  apply list_elem_of_lookup in Hin as [i Hi].
  destruct Hres as [[-> ->]|[-> (job & Hjob & Href)]].
  { pose proof (Hfirst i v Hi Hun). apply lookup_lt_Some in Hi. lia. }
  exists n, job, w'. split_and!; try done.
  intros j rest -> Hj. apply Hzero. pose proof (Hfirst 0%nat j eq_refl Hj). lia.
Qed.

Lemma cron_entries_unregistered :
  Exists (unregistered cron_app (w_heap cron_built)) cron_entries.
Proof.
  apply Exists_cons_tl, Exists_cons_hd. exists 11%nat, orphan_cron.
  split_and!; [reflexivity|vm_compute; reflexivity|vm_compute; reflexivity].
Qed.

(** C7, as stated, fails: binding the entry of a declared function
    followed by the entry of an undeclared one raises, and
    [config['cron_jobs']] has by then gained the first entry. *)
Lemma partial_binding_counterexample :
  Darq_init 0 TD_1_DAY None None None cron_world = (Ok cron_constructed, cron_built) ∧
  Exists (unregistered cron_app (w_heap cron_built)) cron_entries ∧
  add_cron_jobs cron_app cron_entries cron_built = (Raise DarqException, cron_after) ∧
  cron_list cron_app (w_heap cron_built) = Some [] ∧
  cron_list cron_app (w_heap cron_after) = Some [VRef 10].
Proof.
  split_and!; [vm_compute; reflexivity|apply cron_entries_unregistered|
               vm_compute; reflexivity..].
Qed.

Lemma add_cron_jobs_stops_at_unregistered_witness :
  ∃ n job w',
    add_cron_jobs cron_app cron_entries cron_built = (Raise DarqException, w') ∧
    cron_entries !! n = Some job ∧
    refused_entry cron_app (w_heap w') job ∧
    (∀ i v, cron_entries !! i = Some v → unregistered cron_app (w_heap cron_built) v →
            (n ≤ i)%nat) ∧
    (∀ i v, (i < n)%nat → cron_entries !! i = Some v →
            bound_entry cron_app (w_heap w') v) ∧
    cron_list cron_app (w_heap w') = Some ([] ++ take n cron_entries) ∧
    (n = 0%nat → w' = cron_built) ∧
    (∀ j rest, cron_entries = j :: rest →
               unregistered cron_app (w_heap cron_built) j → w' = cron_built).
Proof.
  apply (add_cron_jobs_stops_at_unregistered cron_app cron_entries cron_built []).
  - vm_compute. reflexivity.
  - apply cron_entries_unregistered.
Defined.

(** C10. The constructor leaves every object that existed before the
    call as it was, whether it returns or raises: the caller's mapping and
    whatever it refers to, a [cron_jobs] list and its entries included.
    When it returns, the application's own mapping is a new object: the
    caller's entries, with [cron_jobs] set to a new, empty list. *)
Theorem constructor_leaves_caller_config cfg dje pre post pub w r w' :
  Darq_init cfg dje pre post pub w = (r, w') →
  (∀ a, a ∈ dom (w_heap w) → w_heap w' !! a = w_heap w !! a) ∧
  (∀ self, r = Ok self →
     ∃ d l,
       w_heap w' !! cfg = Some (ODict d) ∧
       config self ≠ cfg ∧
       w_heap w' !! config self = Some (ODict (<["cron_jobs" := VRef l]> d)) ∧
       (l ∉ dom (w_heap w)) ∧
       w_heap w' !! l = Some (OList [])).
Proof.
  intros H. apply Darq_init_inv in H as [Hkeep Hok]. split; [exact Hkeep|].
  intros self ->. destruct (Hok self eq_refl) as (d & l & Hd & _ & _ & Hown & Hl & Hcfg & Hlist & _).
  exists d, l. split_and!; try done.
  - rewrite Hkeep; [done|]. apply elem_of_dom. eauto.
  - intros Heq. apply Hown. rewrite Heq. apply elem_of_dom. eauto.
Qed.

Lemma constructor_leaves_caller_config_witness :
  (∀ a, a ∈ dom (w_heap cron_world) → w_heap cron_built !! a = w_heap cron_world !! a) ∧
  (∀ self, Ok cron_constructed = Ok self →
     ∃ d l,
       w_heap cron_built !! 0%nat = Some (ODict d) ∧
       config self ≠ 0%nat ∧
       w_heap cron_built !! config self = Some (ODict (<["cron_jobs" := VRef l]> d)) ∧
       (l ∉ dom (w_heap cron_world)) ∧
       w_heap cron_built !! l = Some (OList [])).
Proof.
  apply (constructor_leaves_caller_config 0%nat TD_1_DAY None None None cron_world).
  vm_compute. reflexivity.
Defined.

(** * Further properties of the code *)

Lemma bind_Ok {A B} (m : M A) (f : A → M B) w a w1 :
  m w = (Ok a, w1) → (m ≫= f) w = f a w1.
Proof. unfold mbind, M_bind. by intros ->. Qed.

Lemma bind_Raise {A B} (m : M A) (f : A → M B) w e w1 :
  m w = (Raise e, w1) → (m ≫= f) w = (Raise e, w1).
Proof. unfold mbind, M_bind. by intros ->. Qed.

(** ** Heap-only computations *)

Lemma quiet_refl w : quiet w w.
Proof. done. Qed.

Lemma quiet_trans w1 w2 w3 : quiet w1 w2 → quiet w2 w3 → quiet w1 w3.
Proof. intros (? & ? & ?) (? & ? & ?). split_and!; congruence. Qed.

Lemma heap_only_ret {A} (a : A) : heap_only (mret a).
Proof. intros w r w' H. unfold mret, M_ret in H. by simplify_eq. Qed.

Lemma heap_only_raise {A} e : heap_only (@raise A e).
Proof. intros w r w' H. unfold raise in H. by simplify_eq. Qed.

Lemma heap_only_bind {A B} (m : M A) (f : A → M B) :
  heap_only m → (∀ a, heap_only (f a)) → heap_only (m ≫= f).
Proof.
  intros Hm Hf w r w' H. apply bind_inv in H as [(e & H & _)|(a & w1 & H1 & H2)].
  - by eapply Hm.
  - eapply quiet_trans; [by eapply Hm | by eapply Hf].
Qed.

Lemma heap_only_get_heap : heap_only get_heap.
Proof. intros w r w' H. unfold get_heap in H. by simplify_eq. Qed.

Lemma heap_only_alloc o : heap_only (alloc o).
Proof. intros w r w' H. unfold alloc in H. by simplify_eq. Qed.

Lemma heap_only_store a o : heap_only (store a o).
Proof. intros w r w' H. unfold store in H. by simplify_eq. Qed.

Lemma heap_only_load_dict a : heap_only (load_dict a).
Proof. intros w r w' H. apply load_dict_inv in H as [-> _]. done. Qed.

Lemma heap_only_load_item a k : heap_only (load_item a k).
Proof. intros w r w' H. apply load_item_inv in H as [-> _]. done. Qed.

Lemma heap_only_store_item a k v : heap_only (store_item a k v).
Proof.
  apply heap_only_bind; [apply heap_only_load_dict|]. intros d. apply heap_only_store.
Qed.

Lemma heap_only_unpack v : heap_only (unpack v).
Proof. intros w r w' H. apply unpack_inv in H as [-> _]. done. Qed.

Lemma heap_only_list_append v x : heap_only (list_append v x).
Proof.
  intros w r w' H. unfold list_append in H. repeat case_match; by simplify_eq.
Qed.

Lemma heap_only_add_cron_jobs self jobs : heap_only (add_cron_jobs self jobs).
Proof.
  induction jobs as [|job rest IH]; [apply heap_only_ret|].
  simpl. apply heap_only_bind; [apply heap_only_get_heap|]. intros h.
  repeat case_match; try apply heap_only_raise.
  apply heap_only_bind; [apply heap_only_store|]. intros _.
  apply heap_only_bind; [apply heap_only_load_item|]. intros l.
  apply heap_only_bind; [apply heap_only_list_append|]. intros _. exact IH.
Qed.

Lemma heap_only_Darq_init cfg dje pre post pub :
  heap_only (Darq_init cfg dje pre post pub).
Proof.
  unfold Darq_init.
  apply heap_only_bind; [apply heap_only_load_dict|]. intros d.
  apply heap_only_bind; [apply heap_only_alloc|]. intros own.
  case_bool_decide; [apply heap_only_raise|].
  case_bool_decide; [apply heap_only_raise|].
  apply heap_only_bind; [apply heap_only_alloc|]. intros dflt.
  apply heap_only_bind; [apply heap_only_store|]. intros _.
  apply heap_only_bind; [apply heap_only_alloc|]. intros fl.
  apply heap_only_bind; [apply heap_only_store_item|]. intros _.
  apply heap_only_bind; [apply heap_only_unpack|]. intros jobs.
  apply heap_only_bind; [apply heap_only_add_cron_jobs|]. intros _.
  apply heap_only_bind; [apply heap_only_load_dict|]. intros caller.
  apply heap_only_bind; [apply heap_only_get_heap|]. intros h.
  apply heap_only_ret.
Qed.

(** ** The constructor *)

(** The constructor up to the unpacking of [cron_jobs], for a mapping
    without reserved keys: the heap then holds the application's own mapping
    at [own], with [cron_jobs] set to the new list at [fl]. *)
Lemma Darq_init_run cfg dje pre post pub w d :
  w_heap w !! cfg = Some (ODict d) →
  "functions" ∉ dom d → "queue_name" ∉ dom d →
  ∃ own dflt fl h5,
    (own ∉ dom (w_heap w)) ∧ (dflt ∉ dom (w_heap w)) ∧ (fl ∉ dom (w_heap w)) ∧
    (∀ a, a ∈ dom (w_heap w) → h5 !! a = w_heap w !! a) ∧
    h5 !! dflt = Some (OList []) ∧
    Darq_init cfg dje pre post pub w =
      (let self := {| registry := Registry_new; default_job_expires := dje;
                      on_job_prerun := pre; on_job_postrun := post;
                      on_job_prepublish := pub; config := own;
                      redis := VNone; connected := false |} in
       jobs ← unpack (default (VRef dflt) (d !! "cron_jobs"));
       add_cron_jobs self jobs;;
       caller ← load_dict cfg;
       h ← get_heap;
       let pool := default VNone (caller !! "redis_pool") in
       let self := if truthy h pool then set_redis pool self else self in
       mret (set_connected (truthy h (redis self)) self)) (set_heap h5 w).
Proof.
  intros Hd Hf Hq.
  set (h := w_heap w).
  set (own := fresh (dom h)).
  set (h1 := <[own := ODict d]> h).
  set (dflt := fresh (dom h1)).
  set (h2 := <[dflt := OList []]> h1).
  set (h3 := <[own := ODict (delete "cron_jobs" d)]> h2).
  set (fl := fresh (dom h3)).
  set (h4 := <[fl := OList []]> h3).
  set (h5 := <[own := ODict (<["cron_jobs" := VRef fl]> (delete "cron_jobs" d))]> h4).
  assert (own ∉ dom h) as Hown by apply is_fresh.
  assert (dflt ∉ dom h1) as Hdflt by apply is_fresh.
  assert (fl ∉ dom h3) as Hfl by apply is_fresh.
  assert (∀ a, a ∈ dom h → a ∈ dom h1) as Hin1.
  { intros a Ha. unfold h1. rewrite dom_insert_L. apply elem_of_union. by right. }
  assert (own ∈ dom h1) as Hown1.
  { unfold h1. rewrite dom_insert_L. apply elem_of_union. left. by apply elem_of_singleton. }
  assert (∀ a, a ∈ dom h1 → a ∈ dom h3) as Hin3.
  { intros a Ha. unfold h3, h2. rewrite !dom_insert_L.
    apply elem_of_union. right. apply elem_of_union. by right. }
  assert (dflt ∈ dom h3) as Hdflt3.
  { unfold h3, h2. rewrite !dom_insert_L.
    apply elem_of_union. right. apply elem_of_union. left. by apply elem_of_singleton. }
  assert (dflt ≠ own) as Hne1 by (intros Heq; apply Hdflt; by rewrite Heq).
  assert (fl ≠ own) as Hne2 by (intros Heq; apply Hfl; rewrite Heq; by apply Hin3).
  assert (fl ≠ dflt) as Hne3 by (intros Heq; apply Hfl; by rewrite Heq).
  exists own, dflt, fl, h5. split_and!.
  - done.
  - intros Ha. by apply Hdflt, Hin1.
  - intros Ha. by apply Hfl, Hin3, Hin1.
  - intros a Ha.
    assert (a ≠ own) by (intros ->; done).
    assert (a ≠ dflt) by (intros ->; by apply Hdflt, Hin1).
    assert (a ≠ fl) by (intros ->; by apply Hfl, Hin3, Hin1).
    unfold h5, h4, h3, h2, h1.
    rewrite lookup_insert_ne by done. rewrite lookup_insert_ne by done.
    rewrite lookup_insert_ne by done. rewrite lookup_insert_ne by done.
    by rewrite lookup_insert_ne.
  - unfold h5, h4, h3, h2.
    rewrite lookup_insert_ne by done. rewrite lookup_insert_ne by done.
    rewrite lookup_insert_ne by done. by rewrite lookup_insert_eq.
  - unfold Darq_init.
    rewrite (bind_Ok (load_dict cfg) _ w d w) by (unfold load_dict; by rewrite Hd).
    rewrite (bind_Ok (alloc (ODict d)) _ w own (set_heap h1 w)) by done.
    rewrite !bool_decide_eq_false_2 by done.
    rewrite (bind_Ok (alloc (OList [])) _ (set_heap h1 w) dflt (set_heap h2 w)) by done.
    rewrite (bind_Ok (store own _) _ (set_heap h2 w) tt (set_heap h3 w)) by done.
    rewrite (bind_Ok (alloc (OList [])) _ (set_heap h3 w) fl (set_heap h4 w)) by done.
    rewrite (bind_Ok (store_item own "cron_jobs" (VRef fl)) _ (set_heap h4 w) tt
               (set_heap h5 w)).
    { done. }
    unfold store_item, load_dict, store, mbind, M_bind. simpl.
    unfold h4, h3. rewrite lookup_insert_ne by done. by rewrite lookup_insert_eq.
Qed.

(** X1. A configuration mapping with the key [functions] or the key
    [queue_name] makes the constructor raise [DarqConfigError]. *)
Theorem constructor_rejects_reserved_keys cfg dje pre post pub w d :
  w_heap w !! cfg = Some (ODict d) →
  "functions" ∈ dom d ∨ "queue_name" ∈ dom d →
  ∃ w', Darq_init cfg dje pre post pub w = (Raise DarqConfigError, w').
Proof.
  intros Hd Hres. unfold Darq_init.
  rewrite (bind_Ok (load_dict cfg) _ w d w) by (unfold load_dict; by rewrite Hd).
  erewrite (bind_Ok (alloc (ODict d))) by reflexivity.
  destruct (decide ("functions" ∈ dom d)) as [Hf|Hf].
  - rewrite bool_decide_eq_true_2 by done. unfold raise. eauto.
  - rewrite bool_decide_eq_false_2 by done.
    destruct Hres as [?|Hq]; [done|].
    rewrite bool_decide_eq_true_2 by done. unfold raise. eauto.
Qed.

Lemma constructor_rejects_reserved_keys_witness :
  ∃ w', Darq_init 0 TD_1_DAY None None None reserved_world = (Raise DarqConfigError, w').
Proof.
  apply (constructor_rejects_reserved_keys 0%nat TD_1_DAY None None None reserved_world
           {[ "queue_name" := VStr "fast" ]}).
  - vm_compute. reflexivity.
  - right. apply elem_of_dom. exists (VStr "fast"). vm_compute. reflexivity.
Defined.

(** X2. For a configuration mapping without reserved keys, and without
    [cron_jobs] or with an empty [cron_jobs] list, the constructor returns:
    the application carries the hooks and the default expiry it was given,
    an empty registry, and an empty [cron_jobs] list of its own. *)
Theorem constructor_returns cfg dje pre post pub w d :
  w_heap w !! cfg = Some (ODict d) →
  "functions" ∉ dom d → "queue_name" ∉ dom d →
  d !! "cron_jobs" = None ∨
    (∃ l, d !! "cron_jobs" = Some (VRef l) ∧ w_heap w !! l = Some (OList [])) →
  ∃ self w',
    Darq_init cfg dje pre post pub w = (Ok self, w') ∧
    registry self = Registry_new ∧
    default_job_expires self = dje ∧
    on_job_prerun self = pre ∧ on_job_postrun self = post ∧
    on_job_prepublish self = pub ∧
    cron_list self (w_heap w') = Some [].
Proof.
  intros Hd Hf Hq Hcron.
  destruct (Darq_init_run cfg dje pre post pub w d Hd Hf Hq)
    as (own & dflt & fl & h5 & Hown & Hdflt & Hfl & Hold & Hh5 & Hrun).
  assert (unpack (default (VRef dflt) (d !! "cron_jobs")) (set_heap h5 w) =
            (Ok [], set_heap h5 w)) as Hunpack.
  { destruct Hcron as [->|(l & -> & Hl)]; unfold unpack; simpl.
    - by rewrite Hh5.
    - rewrite Hold by (apply elem_of_dom; eauto). by rewrite Hl. }
  assert (∃ self w',
    Darq_init cfg dje pre post pub w = (Ok self, w') ∧
    default_job_expires self = dje ∧
    on_job_prerun self = pre ∧ on_job_postrun self = post ∧
    on_job_prepublish self = pub) as (self & w' & Hinit & Hfields).
  { rewrite Hrun. simpl.
    rewrite (bind_Ok _ _ _ _ _ Hunpack).
    unfold add_cron_jobs.
    rewrite (bind_Ok (mret tt) _ (set_heap h5 w) tt (set_heap h5 w)) by done.
    rewrite (bind_Ok (load_dict cfg) _ (set_heap h5 w) d (set_heap h5 w)).
    2: { unfold load_dict. simpl. rewrite Hold by (apply elem_of_dom; eauto).
         by rewrite Hd. }
    unfold mbind, M_bind, get_heap, mret, M_ret. simpl.
    eexists _, _. split; [reflexivity|].
    destruct (truthy h5 (default VNone (d !! "redis_pool"))); done. }
  exists self, w'. split; [done|].
  pose proof Hinit as Hinv. apply Darq_init_inv in Hinv as [_ Hinv].
  destruct (Hinv self eq_refl) as (d' & l & _ & _ & _ & _ & _ & Hcfg & Hl & Hreg & _).
  destruct Hfields as (? & ? & ? & ?).
  split_and!; try done.
  unfold cron_list. rewrite Hcfg, lookup_insert_eq, Hl. done.
Qed.

Lemma constructor_returns_witness :
  ∃ self w',
    Darq_init 0 TD_1_DAY None None (Some trace_id_hook) demo_world = (Ok self, w') ∧
    registry self = Registry_new ∧
    default_job_expires self = TD_1_DAY ∧
    on_job_prerun self = None ∧ on_job_postrun self = None ∧
    on_job_prepublish self = Some trace_id_hook ∧
    cron_list self (w_heap w') = Some [].
Proof.
  apply (constructor_returns 0%nat TD_1_DAY None None (Some trace_id_hook) demo_world
           {[ "redis_settings" := VStr "redis://localhost" ]}).
  - vm_compute. reflexivity.
  - intros H. apply elem_of_dom in H as [v H]. vm_compute in H. discriminate H.
  - intros H. apply elem_of_dom in H as [v H]. vm_compute in H. discriminate H.
  - left. vm_compute. reflexivity.
Defined.

(** X3. A configuration mapping whose [cron_jobs] list is not empty
    makes the constructor raise [DarqException]: the registry of the
    application under construction is empty, so the first entry is refused. *)
Theorem constructor_with_cron_entries_raises cfg dje pre post pub w d l job rest :
  w_heap w !! cfg = Some (ODict d) →
  "functions" ∉ dom d → "queue_name" ∉ dom d →
  d !! "cron_jobs" = Some (VRef l) →
  w_heap w !! l = Some (OList (job :: rest)) →
  ∃ w', Darq_init cfg dje pre post pub w = (Raise DarqException, w').
Proof.
  intros Hd Hf Hq Hcron Hl.
  destruct (Darq_init_run cfg dje pre post pub w d Hd Hf Hq)
    as (own & dflt & fl & h5 & Hown & Hdflt & Hfl & Hold & Hh5 & Hrun).
  rewrite Hrun. simpl. rewrite Hcron. simpl.
  rewrite (bind_Ok (unpack (VRef l)) _ (set_heap h5 w) (job :: rest) (set_heap h5 w)).
  2: { unfold unpack. simpl. rewrite Hold by (apply elem_of_dom; eauto). by rewrite Hl. }
  erewrite bind_Raise; [eauto|].
  by rewrite add_cron_jobs_empty_registry.
Qed.

Lemma constructor_with_cron_entries_raises_witness :
  ∃ w', Darq_init 0 TD_1_DAY None None None cron_config_world = (Raise DarqException, w').
Proof.
  apply (constructor_with_cron_entries_raises 0%nat TD_1_DAY None None None
           cron_config_world {[ "cron_jobs" := VRef 1 ]} 1%nat (VRef 2) []).
  - vm_compute. reflexivity.
  - intros H. apply elem_of_dom in H as [v H]. vm_compute in H. discriminate H.
  - intros H. apply elem_of_dom in H as [v H]. vm_compute in H. discriminate H.
  - vm_compute. reflexivity.
  - vm_compute. reflexivity.
Defined.

(** X4. An application that the constructor returns starts connected,
    holding the pool of the configuration, when [redis_pool] is there and
    truthy; otherwise it starts disconnected with no handle. *)
Theorem constructor_connection_shortcut cfg dje pre post pub w self w' d :
  Darq_init cfg dje pre post pub w = (Ok self, w') →
  w_heap w !! cfg = Some (ODict d) →
  (∀ pool, d !! "redis_pool" = Some pool → truthy (w_heap w') pool = true →
           redis self = pool ∧ connected self = true) ∧
  (∀ pool, d !! "redis_pool" = Some pool → truthy (w_heap w') pool = false →
           redis self = VNone ∧ connected self = false) ∧
  (d !! "redis_pool" = None → redis self = VNone ∧ connected self = false).
Proof.
  intros Hinit Hd. apply Darq_init_inv in Hinit as [_ Hinv].
  destruct (Hinv self eq_refl) as (d' & l & Hd' & _ & _ & _ & _ & _ & _ & _ & Hr & Hc).
  rewrite Hd in Hd'. simplify_eq. simpl in Hr. split_and!.
  - intros pool Hp Ht. rewrite Hp in Hr. simpl in Hr. rewrite Ht in Hr.
    rewrite Hc, Hr. done.
  - intros pool Hp Ht. rewrite Hp in Hr. simpl in Hr. rewrite Ht in Hr.
    rewrite Hc, Hr. done.
  - intros Hp. rewrite Hp in Hr. simpl in Hr. rewrite Hc, Hr. done.
Qed.

Lemma constructor_connection_shortcut_witness :
  (redis pooled_app = VPool 7 ∧ connected pooled_app = true) ∧
  (redis cron_constructed = VNone ∧ connected cron_constructed = false).
Proof.
  split.
  - apply (proj1 (constructor_connection_shortcut 0%nat TD_1_DAY None None None
                    pooled_world pooled_app pooled_built {[ "redis_pool" := VPool 7 ]}
                    ltac:(vm_compute; reflexivity) ltac:(vm_compute; reflexivity))
             (VPool 7)).
    + vm_compute. reflexivity.
    + reflexivity.
  - apply (proj2 (proj2 (constructor_connection_shortcut 0%nat TD_1_DAY None None None
                    cron_world cron_constructed cron_built
                    {[ "redis_settings" := VStr "redis://localhost" ]}
                    ltac:(vm_compute; reflexivity) ltac:(vm_compute; reflexivity)))).
    vm_compute. reflexivity.
Defined.

(** X5. The constructor asks nothing of arq or of the broker, whether it
    returns or raises: no pool is made, even when the configuration names
    broker settings. *)
Theorem constructor_makes_no_external_call cfg dje pre post pub w r w' :
  Darq_init cfg dje pre post pub w = (r, w') →
  w_trace w' = w_trace w ∧ w_oracle w' = w_oracle w ∧ w_pools w' = w_pools w.
Proof. apply heap_only_Darq_init. Qed.

Lemma constructor_makes_no_external_call_witness :
  w_trace cron_built = w_trace cron_world ∧ w_oracle cron_built = w_oracle cron_world ∧
  w_pools cron_built = w_pools cron_world.
Proof.
  apply (constructor_makes_no_external_call 0%nat TD_1_DAY None None None
           cron_world (Ok cron_constructed) cron_built).
  vm_compute. reflexivity.
Defined.

(** ** More on the connection lifecycle *)

Lemma connect_result self p w self' w' :
  connect self p w = (Ok self', w') →
  self' = self ∨ ∃ pool, self' = set_connected true (set_redis pool self).
Proof.
  unfold connect. intros H. destruct (connected self).
  { unfold mret, M_ret in H. simplify_eq. by left. }
  apply bind_Ok_inv in H as (h & w1 & _ & H).
  apply bind_Ok_inv in H as (pool & w2 & _ & H).
  unfold mret, M_ret in H. simplify_eq. eauto.
Qed.



(** X7. [connect] without a pool, on an application whose configuration
    has no [redis_settings], raises [KeyError] before anything is asked of
    the broker. *)
Theorem connect_without_settings self p w d :
  connected self = false →
  truthy (w_heap w) p = false →
  w_heap w !! config self = Some (ODict d) →
  d !! "redis_settings" = None →
  connect self p w = (Raise KeyError, w).
Proof.
  intros Hc Hp Hcfg Hs. unfold connect. rewrite Hc.
  rewrite (bind_Ok get_heap _ w (w_heap w) w) by done. rewrite Hp.
  erewrite bind_Raise; [reflexivity|].
  erewrite bind_Raise; [reflexivity|].
  unfold load_item, load_dict, mbind, M_bind. rewrite Hcfg, Hs. done.
Qed.

Lemma connect_without_settings_witness :
  connect idle_app VNone pooled_world = (Raise KeyError, pooled_world).
Proof.
  apply (connect_without_settings idle_app VNone pooled_world {[ "redis_pool" := VPool 7 ]}).
  - reflexivity.
  - reflexivity.
  - vm_compute. reflexivity.
  - vm_compute. reflexivity.
Defined.

(** X8. When [arq.create_pool] raises, [connect] raises the same
    exception after that one attempt; the application is not updated, so a
    second [connect] attempts again, and ends connected with the new pool
    when that attempt succeeds. *)
Theorem connect_failure_then_retry self p w d s e v o :
  connected self = false →
  truthy (w_heap w) p = false →
  w_heap w !! config self = Some (ODict d) →
  d !! "redis_settings" = Some s →
  w_oracle w = Raises e :: Returns v :: o →
  let w1 := set_oracle (Returns v :: o) (set_trace (w_trace w ++ [EvCreatePool s]) w) in
  connect self p w = (Raise e, w1) ∧
  connect self p w1 =
    (Ok (set_connected true (set_redis (VPool (w_pools w)) self)),
     set_pools (S (w_pools w))
       (set_oracle o (set_trace (w_trace w ++ [EvCreatePool s; EvCreatePool s]) w))).
Proof.
  intros Hc Hp Hcfg Hs Ho w1.
  assert (∀ w0, w_heap w0 = w_heap w →
            load_item (config self) "redis_settings" w0 = (Ok s, w0)) as Hload.
  { intros w0 Hw0. unfold load_item, load_dict, mbind, M_bind.
    rewrite Hw0, Hcfg, Hs. done. }
  split.
  - unfold connect. rewrite Hc.
    rewrite (bind_Ok get_heap _ w (w_heap w) w) by done. rewrite Hp.
    erewrite bind_Raise; [reflexivity|].
    erewrite (bind_Ok (load_item _ _)) by (by apply Hload).
    unfold create_pool, emit, ask, mbind, M_bind. simpl. rewrite Ho. done.
  - unfold connect. rewrite Hc.
    rewrite (bind_Ok get_heap _ w1 (w_heap w) w1) by done. rewrite Hp.
    erewrite (bind_Ok (load_item _ _ ≫= _)).
    2: { erewrite (bind_Ok (load_item _ _)) by (by apply Hload).
         unfold create_pool, emit, ask, new_pool, mbind, M_bind. simpl. reflexivity. }
    unfold mret, M_ret. simpl. by rewrite <- app_assoc.
Qed.

Lemma connect_failure_then_retry_witness :
  ∃ w1 w2,
    connect idle_app VNone flaky_world = (Raise (Failure "refused"), w1) ∧
    connect idle_app VNone w1 = (Ok live_app, w2) ∧
    establishments (w_trace w2) = 2%nat.
Proof.
  destruct (connect_failure_then_retry idle_app VNone flaky_world
              {[ "redis_settings" := VStr "redis://localhost" ]}
              (VStr "redis://localhost") (Failure "refused") VNone [])
    as [H1 H2].
  - reflexivity.
  - reflexivity.
  - vm_compute. reflexivity.
  - vm_compute. reflexivity.
  - reflexivity.
  - eexists _, _. split_and!; [exact H1|exact H2|reflexivity].
Defined.

(** X9. When [close] raises, [disconnect] raises the same exception
    and [wait_closed] is not called; when [wait_closed] raises, [disconnect]
    raises that exception.  Either way the application is not updated. *)
Theorem disconnect_failure_propagates self w h e o :
  connected self = true →
  redis self = VPool h →
  (w_oracle w = Raises e :: o →
   disconnect self w =
     (Raise e, set_oracle o (set_trace (w_trace w ++ [EvClose (VPool h)]) w))) ∧
  (∀ v, w_oracle w = Returns v :: Raises e :: o →
   disconnect self w =
     (Raise e, set_oracle o
                 (set_trace (w_trace w ++ [EvClose (VPool h); EvWaitClosed (VPool h)]) w))).
Proof.
  intros Hc Hr. split.
  - intros Ho. unfold disconnect. rewrite Hc, Hr. simpl.
    unfold pool_close, emit, ask, mbind, M_bind, get_heap. simpl. by rewrite Ho.
  - intros v Ho. unfold disconnect. rewrite Hc, Hr. simpl.
    unfold pool_close, pool_wait_closed, emit, ask, mbind, M_bind, get_heap, mret, M_ret.
    simpl. rewrite Ho. simpl. by rewrite <- app_assoc.
Qed.

Lemma disconnect_failure_propagates_witness :
  disconnect live_app stuck_world =
    (Raise (Failure "reset"),
     set_oracle [] (set_trace (w_trace stuck_world ++ [EvClose (VPool 0)]) stuck_world)).
Proof.
  apply (proj1 (disconnect_failure_propagates live_app stuck_world 0%nat
                  (Failure "reset") [] eq_refl eq_refl)).
  reflexivity.
Defined.

(** X10. [connect] and [disconnect] touch the connection state only: the
    registry, the configuration reference, the hooks and the default expiry
    of the application they return are those it had. *)
Theorem lifecycle_keeps_declarations self p w self' w' :
  connect self p w = (Ok self', w') ∨ disconnect self w = (Ok self', w') →
  registry self' = registry self ∧ config self' = config self ∧
  default_job_expires self' = default_job_expires self ∧
  on_job_prerun self' = on_job_prerun self ∧
  on_job_postrun self' = on_job_postrun self ∧
  on_job_prepublish self' = on_job_prepublish self.
Proof.
  intros [H|H].
  - apply connect_result in H as [->|(pool & ->)]; done.
  - apply disconnect_cases in H as [(_ & -> & _)|(_ & -> & _)]; done.
Qed.

Lemma lifecycle_keeps_declarations_witness :
  registry live_app = registry idle_app ∧ config live_app = config idle_app ∧
  default_job_expires live_app = default_job_expires idle_app ∧
  on_job_prerun live_app = on_job_prerun idle_app ∧
  on_job_postrun live_app = on_job_postrun idle_app ∧
  on_job_prepublish live_app = on_job_prepublish idle_app.
Proof.
  apply (lifecycle_keeps_declarations idle_app VNone demo_world live_app live_world).
  left. vm_compute. reflexivity.
Defined.

(** ** More on [delay] *)

Lemma app_eq_self_inv {A} (l evs : list A) : l = l ++ evs → evs = [].
Proof.
  intros H. rewrite <- (app_nil_r l) in H at 1. by apply app_inv_head in H.
Qed.

Lemma enqueue_job_quiet_heap pool name args kwargs w r w' :
  enqueue_job pool name args kwargs w = (r, w') →
  w_heap w' = w_heap w ∧ w_pools w' = w_pools w.
Proof.
  unfold enqueue_job. intros H. destruct pool; try (unfold raise in H; by simplify_eq).
  minv H; unfold emit in Hm; simplify_eq.
  apply ask_inv in H as (? & ? & ?). done.
Qed.

(** X17. Every [delay] call adds to the trace at most one call of the
    pre-publish hook followed by at most one call of [enqueue_job], and
    nothing else: it never makes or closes a pool, and it leaves the heap as
    it was. *)
Theorem delay_calls_hook_then_enqueue self t args kwargs w r w' :
  delay self t args kwargs w = (r, w') →
  ∃ evs, w_trace w' = w_trace w ++ evs ∧ delay_trace_ok evs = true ∧
         w_heap w' = w_heap w ∧ w_pools w' = w_pools w.
Proof.
  rewrite delay_run. simpl. intros H.
  destruct (negb (connected self) || negb (truthy (w_heap w) (redis self))).
  { simplify_eq. exists []. by rewrite app_nil_r. }
  destruct (on_job_prepublish self) as [hook|].
  - destruct (hook _ _ _ _) as [[m kw1]|e].
    + pose proof (enqueue_job_quiet_heap _ _ _ _ _ _ _ H) as [Hh Hp].
      apply enqueue_job_inv in H as [[_ ->]|[_ Ht]].
      * eexists [_]. done.
      * eexists [_; _]. rewrite Ht. simpl. by rewrite <- app_assoc.
    + simplify_eq. eexists [_]. done.
  - pose proof (enqueue_job_quiet_heap _ _ _ _ _ _ _ H) as [Hh Hp].
    apply enqueue_job_inv in H as [[_ ->]|[_ Ht]].
    + exists []. by rewrite app_nil_r.
    + eexists [_]. done.
Qed.

Lemma delay_calls_hook_then_enqueue_witness :
  ∃ evs, w_trace add_enqueued.2 = w_trace live_world ++ evs ∧ delay_trace_ok evs = true ∧
         w_heap add_enqueued.2 = w_heap live_world ∧
         w_pools add_enqueued.2 = w_pools live_world.
Proof.
  apply (delay_calls_hook_then_enqueue add_app_live add_task add_args add_kwargs
           live_world add_enqueued.1).
  vm_compute. reflexivity.
Defined.

(** X11. [delay] raises [DarqConnectionError] without having called
    anything exactly when the application is not connected or its [redis]
    field is falsy. *)
Theorem delay_refused_exactly_when self t args kwargs w r w' :
  delay self t args kwargs w = (r, w') →
  (r = Raise DarqConnectionError ∧ w_trace w' = w_trace w) ↔
  (connected self = false ∨ truthy (w_heap w) (redis self) = false).
Proof.
  rewrite delay_run. simpl. intros H. split.
  - intros [-> Ht].
    destruct (connected self); [|by left].
    destruct (truthy (w_heap w) (redis self)); [|by right]. simpl in H. exfalso.
    destruct (on_job_prepublish self) as [hook|].
    + destruct (hook _ _ _ _) as [[m kw1]|e].
      * apply enqueue_job_inv in H as [[? _]|[_ Ht']]; [done|].
        rewrite Ht' in Ht. simpl in Ht. rewrite <- app_assoc in Ht.
        symmetry in Ht. by apply app_eq_self_inv in Ht.
      * simplify_eq. simpl in Ht. symmetry in Ht. by apply app_eq_self_inv in Ht.
    + apply enqueue_job_inv in H as [[? _]|[_ Ht']]; [done|].
      rewrite Ht' in Ht. symmetry in Ht. by apply app_eq_self_inv in Ht.
  - intros Hg.
    assert (negb (connected self) || negb (truthy (w_heap w) (redis self)) = true) as Hb.
    { destruct Hg as [->| ->]; [done|]. by rewrite orb_true_r. }
    rewrite Hb in H. by simplify_eq.
Qed.

Lemma delay_refused_exactly_when_witness :
  connected add_app = false ∨ truthy (w_heap demo_world) (redis add_app) = false.
Proof.
  apply (delay_refused_exactly_when add_app add_task add_args add_kwargs demo_world
           (Raise DarqConnectionError) demo_world).
  - vm_compute. reflexivity.
  - split; reflexivity.
Defined.

Lemma kwargs_with_defaults_other self t h kwargs k :
  k ≠ "_queue_name" → k ≠ "_expires" →
  kwargs_with_defaults self t h kwargs !! k = kwargs !! k.
Proof.
  intros Hq He. unfold kwargs_with_defaults.
  repeat case_match; rewrite ?lookup_insert_ne by done; done.
Qed.

(** X12. What a [delay] call hands to [enqueue_job]: the held pool's
    method is the one called, with the task's name, the positional arguments
    as given, and every keyword argument other than [_queue_name],
    [_expires] and [__metadata__] as given, for a pre-publish hook (if any)
    that leaves that entry as it finds it. *)
Theorem delay_forwards_the_call self t args kwargs w r w' evs pool name a kwf :
  delay self t args kwargs w = (r, w') →
  w_trace w' = w_trace w ++ evs →
  EvEnqueue pool name a kwf ∈ evs →
  pool = redis self ∧ name = task_name t ∧ a = args ∧
  ∀ k, k ≠ "_queue_name" → k ≠ "_expires" → k ≠ "__metadata__" →
       prepublish_keeps self k → kwf !! k = kwargs !! k.
Proof.
  intros H Ht Hin.
  pose proof (delay_enqueue_inv _ _ _ _ _ _ _ _ _ _ _ _ H Ht Hin) as Hinv.
  simpl in Hinv. destruct Hinv as (-> & -> & -> & _ & _ & Hinv).
  split_and!; try done. intros k Hq He Hm Hkeep.
  destruct (on_job_prepublish self) as [hook|] eqn:Hhook.
  - destruct Hinv as (m & kw1 & Hh & -> & _).
    rewrite kwargs_with_metadata_other by done.
    rewrite (Hkeep _ _ _ _ _ _ _ Hhook Hh).
    by apply kwargs_with_defaults_other.
  - destruct Hinv as [-> _]. by apply kwargs_with_defaults_other.
Qed.

Lemma delay_forwards_the_call_witness :
  VPool 0 = redis plain_app ∧ "tasks.add" = task_name plain_task ∧
  plain_forwarded !! "b" = plain_kwargs !! "b".
Proof.
  destruct (delay_forwards_the_call plain_app plain_task [VInt 1] plain_kwargs live_world
              plain_enqueued.1 plain_enqueued.2
              [EvEnqueue (VPool 0) "tasks.add" [VInt 1] plain_forwarded]
              (VPool 0) "tasks.add" [VInt 1] plain_forwarded)
    as (Hp & Hn & _ & Hk).
  - vm_compute. reflexivity.
  - vm_compute. reflexivity.
  - apply elem_of_cons. left. reflexivity.
  - split_and!; [exact Hp|exact Hn|].
    apply Hk; [done..|]. intros hook md f a kw md' kw' Hh. vm_compute in Hh. discriminate Hh.
Defined.

(** X13. Without a pre-publish hook, [delay] attaches no metadata: the
    forwarded keyword arguments have a [__metadata__] entry only if the
    caller passed one. *)
Theorem delay_without_hook_attaches_nothing self t args kwargs w r w' evs pool name a kwf :
  on_job_prepublish self = None →
  delay self t args kwargs w = (r, w') →
  w_trace w' = w_trace w ++ evs →
  EvEnqueue pool name a kwf ∈ evs →
  kwf !! "__metadata__" = kwargs !! "__metadata__" ∧
  evs = [EvEnqueue pool name a kwf].
Proof.
  intros Hhook H Ht Hin.
  pose proof (delay_enqueue_inv _ _ _ _ _ _ _ _ _ _ _ _ H Ht Hin) as Hinv.
  simpl in Hinv. destruct Hinv as (_ & _ & _ & _ & _ & Hinv).
  rewrite Hhook in Hinv. destruct Hinv as [-> ->].
  split; [|done]. by apply kwargs_with_defaults_other.
Qed.

Lemma delay_without_hook_attaches_nothing_witness :
  plain_forwarded !! "__metadata__" = plain_kwargs !! "__metadata__" ∧
  [EvEnqueue (VPool 0) "tasks.add" [VInt 1] plain_forwarded] =
    [EvEnqueue (VPool 0) "tasks.add" [VInt 1] plain_forwarded].
Proof.
  apply (delay_without_hook_attaches_nothing plain_app plain_task [VInt 1] plain_kwargs
           live_world plain_enqueued.1 plain_enqueued.2
           [EvEnqueue (VPool 0) "tasks.add" [VInt 1] plain_forwarded]
           (VPool 0) "tasks.add" [VInt 1] plain_forwarded).
  - reflexivity.
  - vm_compute. reflexivity.
  - vm_compute. reflexivity.
  - apply elem_of_cons. left. reflexivity.
Defined.

(** X14. When the pre-publish hook raises, [delay] raises the same
    exception and [enqueue_job] is not called. *)
Theorem delay_hook_failure_propagates self t args kwargs w hook e :
  connected self = true →
  truthy (w_heap w) (redis self) = true →
  on_job_prepublish self = Some hook →
  hook ∅ (task_arq_function t) args (kwargs_with_defaults self t (w_heap w) kwargs)
    = Raise e →
  delay self t args kwargs w =
    (Raise e,
     set_trace (w_trace w ++ [EvPrePublish ∅ (task_arq_function t) args
                                (kwargs_with_defaults self t (w_heap w) kwargs)]) w).
Proof.
  intros Hc Hr Hhook He. rewrite delay_run. simpl. by rewrite Hc, Hr, Hhook, He.
Qed.

Lemma delay_hook_failure_propagates_witness :
  delay unpublishable_app add_task add_args add_kwargs live_world =
    (Raise (Failure "no trace"),
     set_trace (w_trace live_world ++
                [EvPrePublish ∅ (task_arq_function add_task) add_args
                   (kwargs_with_defaults unpublishable_app add_task (w_heap live_world)
                      add_kwargs)]) live_world).
Proof.
  apply (delay_hook_failure_propagates unpublishable_app add_task add_args add_kwargs
           live_world failing_prepublish (Failure "no trace")).
  - reflexivity.
  - reflexivity.
  - reflexivity.
  - reflexivity.
Defined.

(** X15. On a connected application holding a pool, with a pre-publish
    hook (if any) that returns, [delay] returns what [enqueue_job] returns,
    a job or [None] alike, and raises what [enqueue_job] raises. *)
Theorem delay_returns_engine_result self t args kwargs w p :
  connected self = true →
  redis self = VPool p →
  match on_job_prepublish self with
  | Some hook =>
      ∃ mk, hook ∅ (task_arq_function t) args
              (kwargs_with_defaults self t (w_heap w) kwargs) = Ok mk
  | None => True
  end →
  (∀ v o, w_oracle w = Returns v :: o →
          ∃ w', delay self t args kwargs w = (Ok v, w') ∧ w_oracle w' = o) ∧
  (∀ e o, w_oracle w = Raises e :: o →
          ∃ w', delay self t args kwargs w = (Raise e, w') ∧ w_oracle w' = o).
Proof.
  intros Hc Hr Hhook. rewrite delay_run. simpl. rewrite Hc, Hr. simpl.
  destruct (on_job_prepublish self) as [hook|].
  - destruct Hhook as [[m kw1] ->].
    split; intros x o Ho; unfold enqueue_job, emit, ask, mbind, M_bind; simpl;
      rewrite Ho; eauto.
  - split; intros x o Ho; unfold enqueue_job, emit, ask, mbind, M_bind; simpl;
      rewrite Ho; eauto.
Qed.

Lemma delay_returns_engine_result_witness :
  ∃ w', delay add_app_live add_task add_args add_kwargs answering_world =
          (Ok (VJob "job-1"), w') ∧ w_oracle w' = [].
Proof.
  apply (proj1 (delay_returns_engine_result add_app_live add_task add_args add_kwargs
                  answering_world 0%nat eq_refl eq_refl
                  ltac:(eexists; reflexivity))).
  reflexivity.
Defined.

(** X16. The pre-publish hook is called with an empty metadata mapping,
    the task's descriptor and the positional arguments.  A mapping it leaves
    non-empty is forwarded under [__metadata__], in place of whatever was
    there; when it leaves the mapping empty, the keyword arguments are
    forwarded as the hook left them. *)
Theorem delay_attaches_nonempty_metadata
    self t args kwargs w r w' evs md0 f0 a0 kw0 hook m kw1 pool name a kwf :
  on_job_prepublish self = Some hook →
  delay self t args kwargs w = (r, w') →
  w_trace w' = w_trace w ++ evs →
  EvPrePublish md0 f0 a0 kw0 ∈ evs →
  hook md0 f0 a0 kw0 = Ok (m, kw1) →
  EvEnqueue pool name a kwf ∈ evs →
  md0 = ∅ ∧ f0 = task_arq_function t ∧ a0 = args ∧
  (m ≠ ∅ → kwf = <["__metadata__" := VDict m]> kw1) ∧
  (m = ∅ → kwf = kw1).
Proof.
  intros Hhook H Ht Hpub Hm Henq.
  pose proof (delay_enqueue_inv _ _ _ _ _ _ _ _ _ _ _ _ H Ht Henq) as Hinv.
  simpl in Hinv. destruct Hinv as (_ & _ & _ & _ & _ & Hinv).
  rewrite Hhook in Hinv. destruct Hinv as (m' & kw1' & Hh & -> & ->).
  elem_inv Hpub. rewrite Hh in Hm. simplify_eq.
  split_and!; try done.
  - intros Hne. unfold kwargs_with_metadata, truthy.
    rewrite bool_decide_eq_false_2; [done|]. intros Hd. by apply dom_empty_inv_L in Hd.
  - intros ->. unfold kwargs_with_metadata, truthy.
    by rewrite bool_decide_eq_true_2 by apply dom_empty_L.
Qed.

Lemma delay_attaches_nonempty_metadata_witness :
  add_forwarded =
    <["__metadata__" := VDict {[ "trace_id" := VStr "abc" ]}]>
      (<["_queue_name" := VStr "math"]> add_kwargs).
Proof.
  destruct (delay_attaches_nonempty_metadata add_app_live add_task add_args add_kwargs
              live_world add_enqueued.1 add_enqueued.2 add_published
              ∅ (task_arq_function add_task) add_args
              (<["_queue_name" := VStr "math"]> add_kwargs)
              trace_id_hook {[ "trace_id" := VStr "abc" ]}
              (<["_queue_name" := VStr "math"]> add_kwargs)
              (VPool 0) "tasks.add" add_args add_forwarded)
    as (_ & _ & _ & Hne & _).
  - reflexivity.
  - vm_compute. reflexivity.
  - vm_compute. reflexivity.
  - apply elem_of_cons. left. vm_compute. reflexivity.
  - vm_compute. reflexivity.
  - apply elem_of_cons. right. apply elem_of_cons. left. reflexivity.
  - apply Hne. intros Hm. apply (f_equal (λ d : dict, d !! "trace_id")) in Hm.
    vm_compute in Hm. discriminate Hm.
Defined.

(** ** More on [wrapper] *)

(** X18. The wrapper of a function that is not in the registry raises
    [KeyError] at once: the job context is not written, no hook and no body
    is called. *)
Theorem wrapper_unregistered self function ctx args kwargs w :
  by_original_coro (registry self) !! Original (fid function) = None →
  wrapper self function ctx args kwargs w = (Raise KeyError, w).
Proof.
  intros Hreg. unfold wrapper. rewrite Hreg. by erewrite bind_Raise.
Qed.

Lemma wrapper_unregistered_witness :
  wrapper worker_app stray_function 9 add_args add_job_kwargs job_world =
    (Raise KeyError, job_world).
Proof.
  apply (wrapper_unregistered worker_app stray_function 9%nat add_args add_job_kwargs
           job_world).
  vm_compute. reflexivity.
Defined.

(** X19. When the pre-run hook raises, the wrapper raises the same
    exception; the body and the post-run hook are not called.  The hook was
    handed the job context with the metadata stored in it, and the context
    is left with what the hook had written to it before it raised. *)
Theorem wrapper_prerun_failure self function ctx args kwargs w af c0 hook e c1 kw1 :
  by_original_coro (registry self) !! Original (fid function) = Some af →
  w_heap w !! ctx = Some (ODict c0) →
  on_job_prerun self = Some hook →
  let c := <["metadata" := default (VDict ∅) (kwargs !! "__metadata__")]> c0 in
  let kw := delete "__metadata__" kwargs in
  hook c af args kw = Raised e c1 kw1 →
  wrapper self function ctx args kwargs w =
    (Raise e, set_trace (w_trace w ++ [EvPreRun c af args kw])
                (set_heap (<[ctx := ODict c1]> (w_heap w)) w)).
Proof.
  intros Hreg Hctx Hpre c kw Hh.
  rewrite (wrapper_run _ _ _ _ _ _ _ _ Hreg Hctx). simpl.
  rewrite Hpre. fold c kw. rewrite Hh. simpl. by rewrite insert_insert_eq.
Qed.

Lemma wrapper_prerun_failure_witness :
  wrapper guarded_app add_function 9 add_args ∅ job_world =
    (Raise (Failure "pre"),
     set_trace (w_trace job_world ++
                [EvPreRun (<["metadata" := default (VDict ∅) ((∅ : dict) !! "__metadata__")]> ∅)
                   (task_arq_function add_task) add_args (delete "__metadata__" ∅)])
       (set_heap (<[9%nat := ODict (<["metadata" :=
                     default (VDict ∅) ((∅ : dict) !! "__metadata__")]> ∅)]>
                    (w_heap job_world)) job_world)).
Proof.
  apply (wrapper_prerun_failure guarded_app add_function 9%nat add_args ∅ job_world
           (task_arq_function add_task) ∅ failing_prerun (Failure "pre")
           (<["metadata" := default (VDict ∅) ((∅ : dict) !! "__metadata__")]> ∅)
           (delete "__metadata__" ∅)).
  - vm_compute. reflexivity.
  - vm_compute. reflexivity.
  - reflexivity.
  - reflexivity.
Defined.

Lemma after_body_events self function af args c1 kw1 r evs c2 :
  after_body self function af args c1 kw1 r evs c2 →
  (∀ i a k, EvBody i a k ∈ evs → i = fid function ∧ a = args ∧ k = kw1) ∧
  (∀ c f a k res, EvPostRun c f a k res ∈ evs →
     c = c1 ∧ f = af ∧ a = args ∧ k = kw1 ∧ body function args kw1 = Ok res) ∧
  (∀ c f a k, EvPreRun c f a k ∉ evs) ∧
  EvBody (fid function) args kw1 ∈ evs ∧
  (∀ v, r = Ok v → body function args kw1 = Ok v) ∧
  Forall (λ ev, is_job_event ev = true) evs.
Proof.
  intros Hb. inversion Hb; subst; split_and!;
    try (intros; match goal with H : _ ∈ _ |- _ => elem_inv H end; done);
    try (intros ???? Hin; by elem_inv Hin);
    try (apply elem_of_cons; by left);
    try (intros ? ?; by simplify_eq);
    repeat constructor.
Qed.

(** X20. When the post-run hook raises, the wrapper raises the same
    exception although the body has returned: the result of the body is
    lost to the caller. *)
Theorem wrapper_postrun_failure self function ctx args kwargs w af c0 r w' evs e hook :
  by_original_coro (registry self) !! Original (fid function) = Some af →
  w_heap w !! ctx = Some (ODict c0) →
  wrapper self function ctx args kwargs w = (r, w') →
  w_trace w' = w_trace w ++ evs →
  ∀ c k v c' k', on_job_postrun self = Some hook →
                 EvPostRun c af args k v ∈ evs →
                 hook c af args k v = Raised e c' k' →
                 r = Raise e ∧ body function args k = Ok v.
Proof.
  intros Hreg Hctx Hw Ht c k v c' k' Hpost Hin Hh.
  apply (wrapper_sound _ _ _ _ _ _ _ _ _ _ Hreg Hctx) in Hw as (evs' & c2 & Hrun & Ht' & _).
  rewrite Ht' in Ht. apply app_inv_head in Ht. subst evs'.
  assert (∀ c1 kw1 evs1, after_body self function af args c1 kw1 r evs1 c2 →
            EvPostRun c af args k v ∈ evs1 → r = Raise e ∧ body function args k = Ok v)
    as Hbody.
  { intros c1 kw1 evs1 Hb Hin1. inversion Hb; subst; elem_inv Hin1.
    - split; [congruence|done].
    - split; [|done]. congruence. }
  inversion Hrun as [hk e' c1 kw1 Hp Hr|hk c1 kw1 r' evs' c3 Hp Hr Hb|r' evs' c3 Hp Hb]; subst.
  - by elem_inv Hin.
  - apply elem_of_cons in Hin as [?|Hin]; [done|]. by eapply Hbody.
  - by eapply Hbody.
Qed.

Lemma wrapper_postrun_failure_witness :
  (wrapper sour_app add_function 9 add_args ∅ job_world).1 = Raise (Failure "post") ∧
  body add_function add_args ∅ = Ok (VInt 3).
Proof.
  destruct (wrapper sour_app add_function 9 add_args ∅ job_world) as [r w'] eqn:Hw.
  apply (wrapper_postrun_failure sour_app add_function 9%nat add_args ∅ job_world
           (task_arq_function add_task) ∅ r w'
           [EvBody 1 add_args ∅;
            EvPostRun {[ "metadata" := VDict ∅ ]} (task_arq_function add_task) add_args ∅
              (VInt 3)]
           (Failure "post") failing_postrun
           ltac:(vm_compute; reflexivity) ltac:(vm_compute; reflexivity) Hw
           ltac:(vm_compute in Hw; injection Hw as <- <-; vm_compute; reflexivity)
           {[ "metadata" := VDict ∅ ]} ∅ (VInt 3) {[ "metadata" := VDict ∅ ]} ∅).
  - reflexivity.
  - apply elem_of_cons. right. apply elem_of_cons. left. reflexivity.
  - reflexivity.
Defined.

Lemma after_store_events self function af args c kw r evs c2 :
  after_store self function af args c kw r evs c2 →
  (∀ c' f a k, EvPreRun c' f a k ∈ evs → c' = c ∧ f = af ∧ a = args ∧ k = kw) ∧
  Forall (λ ev, is_job_event ev = true) evs ∧
  (∀ v, r = Ok v →
     ∃ c1 kw1, EvBody (fid function) args kw1 ∈ evs ∧ body function args kw1 = Ok v ∧
       (on_job_prerun self = None → kw1 = kw) ∧
       (∀ hook, on_job_prerun self = Some hook → hook c af args kw = Returned c1 kw1) ∧
       ∀ c' f a k res, EvPostRun c' f a k res ∈ evs →
                       c' = c1 ∧ f = af ∧ a = args ∧ k = kw1 ∧ res = v) ∧
  (∀ i a k, EvBody i a k ∈ evs →
     i = fid function ∧ a = args ∧
     (on_job_prerun self = None → k = kw) ∧
     (∀ hook, on_job_prerun self = Some hook → ∃ c1, hook c af args kw = Returned c1 k)).
Proof.
  intros Hrun.
  inversion Hrun as [hk e c1 kw1 Hp Hr|hk c1 kw1 r' evs' c3 Hp Hr Hb|r' evs' c3 Hp Hb]; subst.
  - split_and!.
    + intros ???? Hin. by elem_inv Hin.
    + repeat constructor.
    + intros v ?. done.
    + intros ??? Hin. by elem_inv Hin.
  - destruct (after_body_events _ _ _ _ _ _ _ _ _ Hb) as (Hbd & Hpo & Hnp & Hin & Hok & Hall).
    split_and!.
    + intros ???? Hi. apply elem_of_cons in Hi as [?|Hi]; [by simplify_eq|].
      by apply Hnp in Hi.
    + by constructor.
    + intros v ->. exists c1, kw1. split_and!.
      * apply elem_of_cons. by right.
      * by apply Hok.
      * congruence.
      * intros hook ?. congruence.
      * intros ????? Hi. apply elem_of_cons in Hi as [?|Hi]; [done|].
        destruct (Hpo _ _ _ _ _ Hi) as (-> & -> & -> & -> & Hres).
        rewrite (Hok v eq_refl) in Hres. by simplify_eq.
    + intros ??? Hi. apply elem_of_cons in Hi as [?|Hi]; [done|].
      destruct (Hbd _ _ _ Hi) as (-> & -> & ->).
      split_and!; [done|done|congruence|]. intros hook ?. exists c1. congruence.
  - destruct (after_body_events _ _ _ _ _ _ _ _ _ Hb) as (Hbd & Hpo & Hnp & Hin & Hok & Hall).
    split_and!.
    + intros ???? Hi. by apply Hnp in Hi.
    + done.
    + intros v ->. exists c, kw. split_and!; [done|by apply Hok|done|congruence|].
      intros ????? Hi. destruct (Hpo _ _ _ _ _ Hi) as (-> & -> & -> & -> & Hres).
      rewrite (Hok v eq_refl) in Hres. by simplify_eq.
    + intros ??? Hi. destruct (Hbd _ _ _ Hi) as (-> & -> & ->).
      split_and!; [done|done|done|congruence].
Qed.

(** X21. A value that the wrapper returns is the value the body
    returned, for the keyword arguments the body was called with; the
    post-run hook, when it was called, was handed that value, and what the
    hooks return is not what the wrapper returns. *)
Theorem wrapper_returns_body_result self function ctx args kwargs w af c0 v w' evs :
  by_original_coro (registry self) !! Original (fid function) = Some af →
  w_heap w !! ctx = Some (ODict c0) →
  wrapper self function ctx args kwargs w = (Ok v, w') →
  w_trace w' = w_trace w ++ evs →
  ∃ kw1, EvBody (fid function) args kw1 ∈ evs ∧
         body function args kw1 = Ok v ∧
         ∀ c f a k res, EvPostRun c f a k res ∈ evs →
                        f = af ∧ a = args ∧ k = kw1 ∧ res = v.
Proof.
  intros Hreg Hctx Hw Ht.
  apply (wrapper_sound _ _ _ _ _ _ _ _ _ _ Hreg Hctx) in Hw as (evs' & c2 & Hrun & Ht' & _).
  rewrite Ht' in Ht. apply app_inv_head in Ht. subst evs'.
  destruct (after_store_events _ _ _ _ _ _ _ _ _ Hrun) as (_ & _ & Hok & _).
  destruct (Hok v eq_refl) as (c1 & kw1 & Hin & Hb & _ & _ & Hpost).
  exists kw1. split_and!; [done|done|]. intros c f a k res Hi.
  by destruct (Hpost _ _ _ _ _ Hi) as (_ & ? & ? & ? & ?).
Qed.

Lemma wrapper_returns_body_result_witness :
  ∃ kw1, EvBody (fid add_function) add_args kw1 ∈ add_job_trace ∧
         body add_function add_args kw1 = Ok (VInt 3) ∧
         ∀ c f a k res, EvPostRun c f a k res ∈ add_job_trace →
                        f = task_arq_function add_task ∧ a = add_args ∧ k = kw1 ∧
                        res = VInt 3.
Proof.
  apply (wrapper_returns_body_result worker_app add_function 9%nat add_args add_job_kwargs
           job_world (task_arq_function add_task) ∅ (VInt 3) add_job_run.2 add_job_trace).
  - vm_compute. reflexivity.
  - vm_compute. reflexivity.
  - vm_compute. reflexivity.
  - vm_compute. reflexivity.
Defined.

(** X22. Whatever the keyword arguments of a job are, the wrapper takes
    [__metadata__] out of them before anything is called: the pre-run hook
    finds the value that was there (of whatever type, or an empty mapping)
    in the [metadata] entry of the context and keyword arguments without
    [__metadata__]; so does the body, after a pre-run hook (if any) that
    leaves the keyword arguments alone. *)
Theorem wrapper_strips_metadata self function ctx args kwargs w af c0 r w' evs :
  by_original_coro (registry self) !! Original (fid function) = Some af →
  w_heap w !! ctx = Some (ODict c0) →
  wrapper self function ctx args kwargs w = (r, w') →
  w_trace w' = w_trace w ++ evs →
  (∀ c f a k, EvPreRun c f a k ∈ evs →
     c = <["metadata" := default (VDict ∅) (kwargs !! "__metadata__")]> c0 ∧
     a = args ∧ k = delete "__metadata__" kwargs ∧ k !! "__metadata__" = None) ∧
  (prerun_keeps_kwargs self →
   ∀ i a k, EvBody i a k ∈ evs →
     a = args ∧ k = delete "__metadata__" kwargs ∧ k !! "__metadata__" = None).
Proof.
  intros Hreg Hctx Hw Ht.
  apply (wrapper_sound _ _ _ _ _ _ _ _ _ _ Hreg Hctx) in Hw as (evs' & c2 & Hrun & Ht' & _).
  rewrite Ht' in Ht. apply app_inv_head in Ht. subst evs'.
  destruct (after_store_events _ _ _ _ _ _ _ _ _ Hrun) as (Hpre & _ & _ & Hbody).
  split.
  - intros c f a k Hin. destruct (Hpre _ _ _ _ Hin) as (-> & _ & -> & ->).
    split_and!; try done. apply lookup_delete_eq.
  - intros Hkeep i a k Hin. destruct (Hbody _ _ _ Hin) as (_ & -> & Hnone & Hsome).
    destruct (on_job_prerun self) as [hook|] eqn:Hp.
    + destruct (Hsome hook eq_refl) as [c1 Hh].
      rewrite (Hkeep _ _ _ _ _ _ _ Hp Hh).
      split_and!; try done. apply lookup_delete_eq.
    + rewrite (Hnone eq_refl). split_and!; try done. apply lookup_delete_eq.
Qed.

Lemma wrapper_strips_metadata_witness :
  add_args = add_args ∧ (∅ : dict) = delete "__metadata__" add_job_kwargs ∧
  (∅ : dict) !! "__metadata__" = None.
Proof.
  apply (proj2 (wrapper_strips_metadata worker_app add_function 9%nat add_args add_job_kwargs
           job_world (task_arq_function add_task) ∅ add_job_run.1 add_job_run.2
           add_job_trace ltac:(vm_compute; reflexivity) ltac:(vm_compute; reflexivity)
           ltac:(vm_compute; reflexivity) ltac:(vm_compute; reflexivity))
           ltac:(intros hook c f a k c' k' Hh Hr; vm_compute in Hh; by simplify_eq)
           1%nat add_args ∅).
  apply elem_of_cons. right. apply elem_of_cons. left. reflexivity.
Defined.

Lemma engine_free_ret {A} (a : A) : engine_free (mret a).
Proof. intros w r w' H. unfold mret, M_ret in H. by simplify_eq. Qed.

Lemma engine_free_raise {A} e : engine_free (@raise A e).
Proof. intros w r w' H. unfold raise in H. by simplify_eq. Qed.

Lemma engine_free_lift {A} (x : result A) : engine_free (lift x).
Proof. intros w r w' H. unfold lift in H. by simplify_eq. Qed.

Lemma engine_free_emit ev : engine_free (emit ev).
Proof. intros w r w' H. unfold emit in H. by simplify_eq. Qed.

Lemma engine_free_heap_only {A} (m : M A) : heap_only m → engine_free m.
Proof. intros Hm w r w' H. by destruct (Hm _ _ _ H) as (_ & ? & ?). Qed.

Lemma engine_free_bind {A B} (m : M A) (f : A → M B) :
  engine_free m → (∀ a, engine_free (f a)) → engine_free (m ≫= f).
Proof.
  intros Hm Hf w r w' H. apply bind_inv in H as [(e & H & _)|(a & w1 & H1 & H2)].
  - by eapply Hm.
  - destruct (Hm _ _ _ H1) as [Ho Hp]. destruct (Hf _ _ _ _ H2) as [Ho' Hp'].
    split; congruence.
Qed.

Lemma engine_free_wrapper self function ctx args kwargs :
  engine_free (wrapper self function ctx args kwargs).
Proof.
  unfold wrapper.
  apply engine_free_bind.
  { case_match; [apply engine_free_ret|apply engine_free_raise]. }
  intros af.
  apply engine_free_bind; [apply engine_free_heap_only, heap_only_store_item|]. intros _.
  apply engine_free_bind.
  { destruct (on_job_prerun self) as [hook|]; [|apply engine_free_ret].
    apply engine_free_bind; [apply engine_free_heap_only, heap_only_load_dict|]. intros c.
    apply engine_free_bind; [apply engine_free_emit|]. intros _.
    destruct (hook _ _ _ _) as [c' kw'|e c' kw'];
      (apply engine_free_bind; [apply engine_free_heap_only, heap_only_store|]; intros _);
      [apply engine_free_ret|apply engine_free_raise]. }
  intros kw.
  apply engine_free_bind; [apply engine_free_emit|]. intros _.
  apply engine_free_bind; [apply engine_free_lift|]. intros res.
  apply engine_free_bind; [|intros _; apply engine_free_ret].
  destruct (on_job_postrun self) as [hook|]; [|apply engine_free_ret].
  apply engine_free_bind; [apply engine_free_heap_only, heap_only_load_dict|]. intros c.
  apply engine_free_bind; [apply engine_free_emit|]. intros _.
  destruct (hook _ _ _ _ _) as [c' kw'|e c' kw'].
  - apply engine_free_heap_only, heap_only_store.
  - apply engine_free_bind; [apply engine_free_heap_only, heap_only_store|]. intros _.
    apply engine_free_raise.
Qed.

(** X23. A run of the wrapper, however it ends, writes to the job
    context only and asks nothing of arq or of the broker: every other
    object of the heap is as it was, and the trace gains calls of hooks and
    of the body only. *)
Theorem wrapper_touches_context_only self function ctx args kwargs w r w' :
  wrapper self function ctx args kwargs w = (r, w') →
  (∀ a, a ≠ ctx → w_heap w' !! a = w_heap w !! a) ∧
  w_oracle w' = w_oracle w ∧ w_pools w' = w_pools w ∧
  ∃ evs, w_trace w' = w_trace w ++ evs ∧ Forall (λ ev, is_job_event ev = true) evs.
Proof.
  intros Hw.
  destruct (engine_free_wrapper _ _ _ _ _ _ _ _ Hw) as [Ho Hp].
  destruct (wrapper_cases _ _ _ _ _ _ _ _ Hw) as [->|(af & c0 & Hreg & Hctx)].
  { split_and!; try done. exists []. by rewrite app_nil_r. }
  apply (wrapper_sound _ _ _ _ _ _ _ _ _ _ Hreg Hctx) in Hw as (evs & c2 & Hrun & Ht & Hh).
  split_and!; try done.
  - intros a Ha. rewrite Hh. by rewrite lookup_insert_ne.
  - exists evs. split; [done|].
    by destruct (after_store_events _ _ _ _ _ _ _ _ _ Hrun) as (_ & ? & _).
Qed.

Lemma wrapper_touches_context_only_witness :
  (∀ a, a ≠ 9%nat → w_heap add_job_run.2 !! a = w_heap job_world !! a) ∧
  w_oracle add_job_run.2 = w_oracle job_world ∧ w_pools add_job_run.2 = w_pools job_world ∧
  ∃ evs, w_trace add_job_run.2 = w_trace job_world ++ evs ∧
         Forall (λ ev, is_job_event ev = true) evs.
Proof.
  apply (wrapper_touches_context_only worker_app add_function 9%nat add_args add_job_kwargs
           job_world add_job_run.1).
  vm_compute. reflexivity.
Defined.

(** ** More on [task] and on cron entries *)

(** X24. Declaring a function registers a descriptor with the
    function's name, the wrapper as coroutine, the timeout and the result
    lifetime in seconds (a timedelta of [s] seconds as the float [s]) and
    the number of tries as given, under the identity of the function;
    functions of another identity stay as they were in the registry.  The
    wrapper, run for the declared function on a job context that is a
    mapping, gets to call a hook or the body, and hands the pre-run hook
    that descriptor.  (The registry is as the spec describes it.) *)
Theorem task_registers self function kr tmo mt q e :
  let self' := (task self function kr tmo mt q e).1 in
  let t := (task self function kr tmo mt q e).2 in
  by_original_coro (registry self') !! Original (fid function) =
    Some (task_arq_function t) ∧
  task_arq_function t =
    {| af_name := get_function_name function; af_coroutine := Wrapper (fid function);
       af_timeout_s := to_seconds tmo; af_keep_result_s := to_seconds kr;
       af_max_tries := mt |} ∧
  (∀ s, tmo = VTimedelta s → af_timeout_s (task_arq_function t) = VFloat s) ∧
  (∀ s, kr = VTimedelta s → af_keep_result_s (task_arq_function t) = VFloat s) ∧
  task_name t = get_function_name function ∧
  (∀ g, fid g ≠ fid function →
        by_original_coro (registry self') !! Original (fid g) =
        by_original_coro (registry self) !! Original (fid g)) ∧
  (∀ ctx c0 args kwargs w r w',
     w_heap w !! ctx = Some (ODict c0) →
     wrapper self' function ctx args kwargs w = (r, w') →
     ∃ ev evs, w_trace w' = w_trace w ++ ev :: evs ∧
       ∀ c f a k, EvPreRun c f a k ∈ ev :: evs → f = task_arq_function t).
Proof.
  intros self' t.
  assert (by_original_coro (registry self') !! Original (fid function) =
            Some (task_arq_function t)) as Hreg.
  { unfold self', t, task. simpl. apply lookup_insert_eq. }
  split_and!; [done|done|by intros s ->|by intros s ->|done| |].
  - intros g Hg. unfold self', task. simpl. apply lookup_insert_ne. congruence.
  - intros ctx c0 args kwargs w r w' Hctx Hw.
    apply (wrapper_sound _ _ _ _ _ _ _ _ _ _ Hreg Hctx) in Hw as (evs & c2 & Hrun & Ht & _).
    destruct (after_store_events _ _ _ _ _ _ _ _ _ Hrun) as (Hpre & _ & _ & _).
    assert (evs ≠ []) as Hne.
    { inversion Hrun as [| |??? _ Hb]; subst; try done. by inversion Hb. }
    destruct evs as [|ev evs]; [done|]. exists ev, evs. split; [done|].
    intros c f a k Hin. by destruct (Hpre _ _ _ _ Hin) as (_ & -> & _).
Qed.

Lemma task_registers_witness :
  ∃ ev evs, w_trace add_job_run.2 = w_trace job_world ++ ev :: evs ∧
    ∀ c f a k, EvPreRun c f a k ∈ ev :: evs → f = task_arq_function add_task.
Proof.
  apply (proj2 (proj2 (proj2 (proj2 (proj2 (proj2
           (task_registers hooked_app add_function VNone VNone VNone (VStr "math") VNone))))))
           9%nat ∅ add_args add_job_kwargs job_world add_job_run.1 add_job_run.2).
  - vm_compute. reflexivity.
  - vm_compute. reflexivity.
Defined.

(** X27. Whatever the entries are, [add_cron_jobs] either returns, and
    then every entry has been bound and appended to [config['cron_jobs']]
    in order, or raises [DarqException], and then exactly the entries
    before the refused one have been: entry [n] is one that cannot be bound,
    the [n] entries before it are bound and are what the list has gained.
    Nothing is asked of arq or of the broker. *)
Theorem add_cron_jobs_appends_a_prefix self jobs w cur r w' :
  cron_list self (w_heap w) = Some cur →
  add_cron_jobs self jobs w = (r, w') →
  ∃ n, (n ≤ length jobs)%nat ∧
       cron_list self (w_heap w') = Some (cur ++ take n jobs) ∧
       (∀ i v, (i < n)%nat → jobs !! i = Some v → bound_entry self (w_heap w') v) ∧
       (r = Ok tt ∧ n = length jobs ∨
        r = Raise DarqException ∧
        ∃ v, jobs !! n = Some v ∧ refused_entry self (w_heap w') v) ∧
       quiet w w'.
Proof.
  intros Hcur Hrun.
  destruct (add_cron_jobs_inv _ _ _ _ _ _ Hcur Hrun)
    as (n & Hn & Hlist & Hpre & Hres & _ & _ & _ & Hq).
  exists n. done.
Qed.

Lemma add_cron_jobs_appends_a_prefix_witness :
  ∃ n, (n ≤ length cron_entries)%nat ∧
       cron_list cron_app (w_heap cron_after) = Some ([] ++ take n cron_entries) ∧
       (∀ i v, (i < n)%nat → cron_entries !! i = Some v →
               bound_entry cron_app (w_heap cron_after) v) ∧
       (Raise DarqException = Ok tt ∧ n = length cron_entries ∨
        @Raise unit DarqException = Raise DarqException ∧
        ∃ v, cron_entries !! n = Some v ∧ refused_entry cron_app (w_heap cron_after) v) ∧
       quiet cron_built cron_after.
Proof.
  apply (add_cron_jobs_appends_a_prefix cron_app cron_entries cron_built []
           (Raise DarqException) cron_after).
  - vm_compute. reflexivity.
  - vm_compute. reflexivity.
Defined.

Lemma add_cron_jobs_all self addrs : ∀ w d l cur,
  w_heap w !! config self = Some (ODict d) →
  d !! "cron_jobs" = Some (VRef l) →
  w_heap w !! l = Some (OList cur) →
  NoDup addrs →
  (∀ a, a ∈ addrs → registered_entry self (w_heap w) a) →
  ∃ w', add_cron_jobs self (VRef <$> addrs) w = (Ok tt, w') ∧
        w_heap w' !! config self = Some (ODict d) ∧
        w_heap w' !! l = Some (OList (cur ++ (VRef <$> addrs))) ∧
        (∀ a j af, a ∈ addrs → w_heap w !! a = Some (OCron j) →
           by_original_coro (registry self) !! cj_coroutine j = Some af →
           w_heap w' !! a = Some (OCron (rebound j (af_coroutine af)))) ∧
        (∀ b, b ∉ addrs → b ≠ l → w_heap w' !! b = w_heap w !! b) ∧
        quiet w w'.
Proof.
  induction addrs as [|a rest IH]; intros w d l cur Hcfg Hd Hl Hnd Hreg.
  { exists w. simpl. rewrite app_nil_r. split_and!; try done.
    intros a j af Hin. by apply elem_of_nil in Hin. }
  apply NoDup_cons in Hnd as [Hnotin Hnd].
  destruct (Hreg a) as (j & af & Ha & Hlook); [apply elem_of_cons; by left|].
  assert (config self ≠ a) as Hne1 by (intros Heq; rewrite Heq in Hcfg; congruence).
  assert (l ≠ a) as Hne2 by (intros Heq; rewrite Heq in Hl; congruence).
  assert (config self ≠ l) as Hne3 by (intros Heq; rewrite Heq in Hcfg; congruence).
  simpl fmap.
  rewrite (add_cron_jobs_bound _ _ _ _ _ _ _ _ _ Ha Hlook Hcfg Hd Hl).
  set (h1 := <[l := _]> (<[a := _]> (w_heap w))).
  assert (∀ b, b ≠ a → b ≠ l → h1 !! b = w_heap w !! b) as Hframe.
  { intros b ? ?. unfold h1. rewrite lookup_insert_ne by done. by rewrite lookup_insert_ne. }
  destruct (IH (set_heap h1 w) d l (cur ++ [VRef a]))
    as (w' & Hrun & Hcfg' & Hl' & Hent & Hfr & Hq); try done.
  - simpl. by rewrite Hframe.
  - simpl. unfold h1. by rewrite lookup_insert_eq.
  - intros b Hb. destruct (Hreg b) as (jb & afb & Hjb & Hlb); [apply elem_of_cons; by right|].
    exists jb, afb. split; [|done]. simpl. rewrite Hframe; [done| |].
    + intros ->. done.
    + intros ->. congruence.
  - exists w'. split_and!; try done.
    + rewrite Hl'. simpl. by rewrite <- app_assoc.
    + intros b jb afb Hb Hjb Hlb. apply elem_of_cons in Hb as [->|Hb].
      * rewrite Hfr by done. simpl. unfold h1.
        rewrite lookup_insert_ne by done. rewrite lookup_insert_eq.
        rewrite Ha in Hjb. simplify_eq. done.
      * apply (Hent b jb afb Hb); [|done]. simpl. rewrite Hframe; [done| |].
        -- intros ->. done.
        -- intros ->. congruence.
    + intros b Hb Hbl. rewrite Hfr; [|intros ?; apply Hb; apply elem_of_cons; by right|done].
      simpl. apply Hframe; [|done]. intros ->. apply Hb. apply elem_of_cons. by left.
Qed.

(** X25. Binding entries that are distinct [CronJob] objects of
    registered functions returns: every entry is appended to
    [config['cron_jobs']], in order, after the entries that were there; each
    [CronJob] has had its coroutine replaced by the coroutine of the
    registered descriptor, in place, and is otherwise as it was; no other
    object has changed. *)
Theorem add_cron_jobs_binds_all self addrs w cur :
  cron_list self (w_heap w) = Some cur →
  NoDup addrs →
  (∀ a, a ∈ addrs → registered_entry self (w_heap w) a) →
  ∃ w', add_cron_jobs self (VRef <$> addrs) w = (Ok tt, w') ∧
        cron_list self (w_heap w') = Some (cur ++ (VRef <$> addrs)) ∧
        (∀ a j af, a ∈ addrs → w_heap w !! a = Some (OCron j) →
           by_original_coro (registry self) !! cj_coroutine j = Some af →
           w_heap w' !! a = Some (OCron (rebound j (af_coroutine af)))) ∧
        (∀ b j, b ∉ addrs → w_heap w !! b = Some (OCron j) →
                w_heap w' !! b = Some (OCron j)).
Proof.
  intros Hcur Hnd Hreg.
  destruct (cron_list_inv _ _ _ Hcur) as (d & l & Hcfg & Hd & Hl).
  destruct (add_cron_jobs_all self addrs w d l cur Hcfg Hd Hl Hnd Hreg)
    as (w' & Hrun & Hcfg' & Hl' & Hent & Hfr & _).
  exists w'. split_and!; [done| |done|].
  - unfold cron_list. by rewrite Hcfg', Hd, Hl'.
  - intros b j Hb Hj. rewrite Hfr; [done|done|]. intros ->. congruence.
Qed.

Lemma add_cron_jobs_binds_all_witness :
  ∃ w', add_cron_jobs cron_app (VRef <$> [10%nat; 20%nat]) nightly_world = (Ok tt, w') ∧
        cron_list cron_app (w_heap w') = Some ([] ++ (VRef <$> [10%nat; 20%nat])) ∧
        (∀ a j af, a ∈ [10%nat; 20%nat] → w_heap nightly_world !! a = Some (OCron j) →
           by_original_coro (registry cron_app) !! cj_coroutine j = Some af →
           w_heap w' !! a = Some (OCron (rebound j (af_coroutine af)))) ∧
        (∀ b j, b ∉ [10%nat; 20%nat] → w_heap nightly_world !! b = Some (OCron j) →
                w_heap w' !! b = Some (OCron j)).
Proof.
  apply (add_cron_jobs_binds_all cron_app [10%nat; 20%nat] nightly_world []).
  - vm_compute. reflexivity.
  - apply NoDup_cons. split.
    + intros H. apply list_elem_of_singleton in H. discriminate H.
    + apply NoDup_singleton.
  - intros a Ha. apply elem_of_cons in Ha as [->|Ha].
    + eexists add_cron, _. split; vm_compute; reflexivity.
    + apply list_elem_of_singleton in Ha as ->.
      eexists nightly_cron, _. split; vm_compute; reflexivity.
Defined.

(** X26. An entry can be bound once: binding rewrites its coroutine to
    the wrapper, and the wrapper is not a key of the registry, so binding
    the same [CronJob] again raises [DarqException] and changes nothing
    more. *)
Theorem add_cron_jobs_rebinding_fails self a j af w cur :
  cron_list self (w_heap w) = Some cur →
  w_heap w !! a = Some (OCron j) →
  by_original_coro (registry self) !! cj_coroutine j = Some af →
  by_original_coro (registry self) !! af_coroutine af = None →
  ∃ w1, add_cron_jobs self [VRef a] w = (Ok tt, w1) ∧
        add_cron_jobs self [VRef a] w1 = (Raise DarqException, w1) ∧
        add_cron_jobs self [VRef a; VRef a] w = (Raise DarqException, w1) ∧
        cron_list self (w_heap w1) = Some (cur ++ [VRef a]).
Proof.
  intros Hcur Ha Hreg Hwrap.
  destruct (cron_list_inv _ _ _ Hcur) as (d & l & Hcfg & Hd & Hl).
  assert (config self ≠ a) as Hne1 by (intros Heq; rewrite Heq in Hcfg; congruence).
  assert (l ≠ a) as Hne2 by (intros Heq; rewrite Heq in Hl; congruence).
  assert (config self ≠ l) as Hne3 by (intros Heq; rewrite Heq in Hcfg; congruence).
  pose proof (add_cron_jobs_bound self a j af [] w d l cur Ha Hreg Hcfg Hd Hl) as H1.
  pose proof (add_cron_jobs_bound self a j af [VRef a] w d l cur Ha Hreg Hcfg Hd Hl) as H2.
  set (w1 := set_heap _ w) in *.
  assert (add_cron_jobs self [VRef a] w1 = (Raise DarqException, w1)) as Hagain.
  { apply add_cron_jobs_refused. intros a' j' Heq Ha'. simplify_eq.
    unfold w1 in Ha'. simpl in Ha'.
    rewrite lookup_insert_ne, lookup_insert_eq in Ha' by done. by simplify_eq. }
  exists w1. split_and!; [done|done|by rewrite H2|].
  unfold cron_list, w1. simpl.
  rewrite lookup_insert_ne, lookup_insert_ne, Hcfg, Hd, lookup_insert_eq by done. done.
Qed.

Lemma add_cron_jobs_rebinding_fails_witness :
  ∃ w1, add_cron_jobs cron_app [VRef 10] cron_built = (Ok tt, w1) ∧
        add_cron_jobs cron_app [VRef 10] w1 = (Raise DarqException, w1) ∧
        add_cron_jobs cron_app [VRef 10; VRef 10] cron_built = (Raise DarqException, w1) ∧
        cron_list cron_app (w_heap w1) = Some ([] ++ [VRef 10]).
Proof.
  apply (add_cron_jobs_rebinding_fails cron_app 10%nat add_cron
           (task_arq_function add_task) cron_built []).
  - vm_compute. reflexivity.
  - vm_compute. reflexivity.
  - vm_compute. reflexivity.
  - vm_compute. reflexivity.
Defined.
